(** * yt_polling_v2: a shallow embedding of the polling script

    The development follows [yt_polling_v2.py] function by function:
    the quota estimator ([estimate_calls]), the batch split of
    [run_polling_loop], the response decoding of [videos_list_stats],
    the CSV sink ([append_rows_to_csv]) and the polling loop with its
    retry/back-off inner loop.

    Conventions of the embedding.
    - Python floats ([t0_hours], the back-off delays, the clock) are
      idealised as exact rationals [Q]; time is counted in seconds.
      [math.ceil] of a float quotient is thus the exact ceiling of the
      exact quotient, and the deadline is not rounded to microseconds as
      [timedelta] does: what hinges on the last bit of a double or on a
      fraction of a microsecond is outside the model.
    - [datetime.utcnow()] reads the field [now] of the world; the clock
      advances only while a remote call is in flight and during
      [time.sleep].
    - The remote service is an oracle: the n-th [videos.list] request
      of the run, for a given batch, takes some time and either returns
      items or raises [HttpError].  Exceptions other than [HttpError]
      are not modelled.
    - A Python [dict] is an insertion-ordered association list with
      in-place update; the file store is a finite map from paths to the
      rows they hold. *)

From Stdlib Require Import QArith Qround Lqa Sorted.
From stdpp Require Import gmap strings pretty list fin_maps.

Local Open Scope Z_scope.

(** ** Constants *)

Definition DEFAULT_INTERVAL : Z := 60.
Definition MAX_BATCH : nat := 50.
Definition QUOTA_PER_CALL : Z := 1.

(** ** Quota estimator *)

(** [estimate_calls]: [math.ceil((t0_hours * 3600) / poll_interval_sec)].
    The division raises [ZeroDivisionError] when the interval is 0, which
    is the [None] result.  The first argument is not used by the source. *)
Definition estimate_calls (num_videos : nat) (poll_interval_sec : Z)
    (t0_hours : Q) : option Z :=
  if poll_interval_sec =? 0 then None
  else Some (Qceiling ((t0_hours * 3600) / inject_Z poll_interval_sec)).

(** The estimate as the specification words it: rounds times the number
    of batch groups per round.  It is compared with [estimate_calls]. *)
Definition ceil_div (a b : nat) : nat := (a + b - 1) `div` b.

Definition spec_rounds (interval_seconds : Z) (duration_hours : Q) : Z :=
  Qceiling ((duration_hours * 3600) / inject_Z interval_seconds).

Definition spec_total_calls (entity_count max_batch_size : nat)
    (interval_seconds : Z) (duration_hours : Q) : Z :=
  spec_rounds interval_seconds duration_hours
  * Z.of_nat (ceil_div entity_count max_batch_size).

(** ** Batch split *)

(** [range(0, stop, step)] for a positive step, unfolded as the iteration
    it denotes; [fuel] bounds the number of elements. *)
Fixpoint range_from (fuel i stop step : nat) : list nat :=
  match fuel with
  | O => []
  | S fuel' =>
      if (i <? stop)%nat then i :: range_from fuel' (i + step) stop step
      else []
  end.

Definition py_range (stop step : nat) : list nat :=
  range_from stop 0 stop step.

(** [l[i:j]] for [0 <= i <= j]. *)
Definition slice {A} (l : list A) (i j : nat) : list A :=
  take (j - i) (drop i l).

(** [[video_ids[i:i + n] for i in range(0, len(video_ids), n)]] *)
Definition batches_of {A} (n : nat) (video_ids : list A) : list (list A) :=
  map (fun i => slice video_ids i (i + n)) (py_range (length video_ids) n).

Definition vid_batches (video_ids : list string) : list (list string) :=
  batches_of MAX_BATCH video_ids.

(** ** Paths *)

Definition sep : Ascii.ascii := Ascii.Ascii true true true true false true false false.

Definition startswith_sep (s : string) : bool :=
  match s with
  | String c _ => Ascii.eqb c sep
  | EmptyString => false
  end.

Fixpoint endswith_sep (s : string) : bool :=
  match s with
  | EmptyString => false
  | String c EmptyString => Ascii.eqb c sep
  | String _ s' => endswith_sep s'
  end.

(** [os.path.join(a, b)] on POSIX. *)
Definition path_join (a b : string) : string :=
  if startswith_sep b then b
  else if String.eqb a "" || endswith_sep a then a +:+ b
  else a +:+ "/" +:+ b.

(** [os.path.join(os.path.join(out_dir, vid), "polls.csv")] *)
Definition csv_path_of (out_dir vid : string) : string :=
  path_join (path_join out_dir vid) "polls.csv".

(** ** Remote responses and decoded records *)

(** One element of [resp["items"]].  The counters of the [statistics]
    part are taken as already parsed by [int]; a missing key is [None]. *)
Record item := Item {
  it_id : string;
  it_viewCount : option Z;
  it_likeCount : option Z;
  it_commentCount : option Z;
  it_publishedAt : option string;
  it_title : option string;
  it_duration : option string }.

(** The record stored under a video id by [videos_list_stats]. *)
Record snapshot := Snapshot {
  viewCount : option Z;
  likeCount : option Z;
  commentCount : option Z;
  publishedAt : option string;
  title : option string;
  duration : option string }.

Inductive http_result :=
  | Items (items : list item)
  | HttpError (status : option Z).

Record response := Response { elapsed : Q; result : http_result }.

(** The remote endpoint: the answer to the n-th request of the run. *)
Definition service := nat -> list string -> response.

(** ** Dictionaries *)

Abbreviation dict V := (list (string * V)).

(** [d[k] = v]: an existing key keeps its position. *)
Fixpoint dict_set {V} (k : string) (v : V) (d : dict V) : dict V :=
  match d with
  | [] => [(k, v)]
  | (k', v') :: d' =>
      if String.eqb k' k then (k, v) :: d' else (k', v') :: dict_set k v d'
  end.

Fixpoint dict_get {V} (k : string) (d : dict V) : option V :=
  match d with
  | [] => None
  | (k', v') :: d' => if String.eqb k' k then Some v' else dict_get k d'
  end.

Definition dict_keys {V} (d : dict V) : list string := map fst d.

(** ** CSV rows, events and the world *)

Inductive cell :=
  | CStr (s : string)
  | CInt (z : Z)
  | CTime (t : Q).   (* [datetime.isoformat()] of the instant [t] *)

Abbreviation row := (list cell).

Inductive event :=
  | EMkdir (path : string)
  | ERound (ts_now : Q)
  | EFetch (t : Q) (attempt : nat) (batch : list string)
  | EWrite (path : string) (r : row)
  | ESleep (secs : Q).

Record world := World {
  now : Q;                          (* the UTC clock, in seconds *)
  requests : nat;                   (* requests sent to the service so far *)
  files : gmap string (list row);   (* regular files, as lists of rows *)
  log : list event }.

Definition log_event (e : event) (w : world) : world :=
  World (now w) (requests w) (files w) (log w ++ [e]).

(** [os.makedirs(path, exist_ok=True)]: directories are only traced. *)
Definition makedirs (path : string) (w : world) : world :=
  log_event (EMkdir path) w.

(** [os.path.exists] for the path of a regular file. *)
Definition path_exists (path : string) (w : world) : bool :=
  match files w !! path with Some _ => true | None => false end.

(** One [writer.writerow] on a file opened in append mode. *)
Definition writerow (path : string) (r : row) (w : world) : world :=
  World (now w) (requests w)
        (<[path := default [] (files w !! path) ++ [r]]> (files w))
        (log w ++ [EWrite path r]).

(** [time.sleep(secs)] for a non-negative [secs]. *)
Definition sleep (secs : Q) (w : world) : world :=
  World (now w + secs) (requests w) (files w) (log w ++ [ESleep secs]).

(** ** videos_list_stats *)

Definition snapshot_of (it : item) : snapshot :=
  Snapshot (it_viewCount it) (it_likeCount it) (it_commentCount it)
           (it_publishedAt it) (it_title it) (it_duration it).

(** The loop over [resp.get("items", [])] filling [out]. *)
Definition decode_items (items : list item) : dict snapshot :=
  foldl (fun out it => dict_set (it_id it) (snapshot_of it) out) [] items.

(** The request is sent, time passes, and the answer is either raised
    ([inl]) or decoded ([inr]). *)
Definition videos_list_stats (svc : service) (video_ids : list string)
    (w : world) : world * (option Z + dict snapshot) :=
  let r := svc (requests w) video_ids in
  let w' := World (now w + elapsed r) (S (requests w)) (files w) (log w) in
  match result r with
  | Items items => (w', inr (decode_items items))
  | HttpError status => (w', inl status)
  end.

(** ** ensure_out_dirs, csv_headers, append_rows_to_csv *)

Definition ensure_out_dirs (out_dir : string) (video_ids : list string)
    (w : world) : world :=
  foldl (fun w vid => makedirs (path_join out_dir vid) w)
        (makedirs out_dir w) video_ids.

Definition csv_headers : row :=
  [CStr "video_id"; CStr "ts_utc"; CStr "view_count"; CStr "like_count";
   CStr "comment_count"; CStr "title"; CStr "publishedAt"].

(** [x if x is not None else ""] for a counter. *)
Definition count_cell (o : option Z) : cell :=
  match o with Some z => CInt z | None => CStr "" end.

(** A text field; [csv.writer] writes [None] as the empty field. *)
Definition text_cell (o : option string) : cell := CStr (default "" o).

Definition csv_row (vid : string) (ts : Q) (rec : snapshot) : row :=
  [CStr vid; CTime ts; count_cell (viewCount rec); count_cell (likeCount rec);
   count_cell (commentCount rec); text_cell (title rec);
   text_cell (publishedAt rec)].

(** The body of [for vid, rec in snapshots.items()]. *)
Definition write_snapshot (out_dir : string) (ts : Q) (w : world)
    (entry : string * snapshot) : world :=
  let d := path_join out_dir entry.1 in
  let w := makedirs d w in
  let csv_path := path_join d "polls.csv" in
  let header_needed := negb (path_exists csv_path w) in
  let w := if header_needed then writerow csv_path csv_headers w else w in
  writerow csv_path (csv_row entry.1 ts entry.2) w.

Definition append_rows_to_csv (out_dir : string) (snapshots : dict snapshot)
    (w : world) : world :=
  let ts := now w in
  foldl (write_snapshot out_dir ts) w snapshots.

(** A sequence of append operations, each one pass of the loop body of
    [append_rows_to_csv] with the time stamp of its call. *)
Definition append_op : Type := Q * (string * snapshot).

Definition append_ops (out_dir : string) (w : world) (ops : list append_op)
    : world :=
  foldl (fun w op => write_snapshot out_dir op.1 w op.2) w ops.

Definition op_path (out_dir : string) (op : append_op) : string :=
  csv_path_of out_dir op.2.1.

Definition op_row (op : append_op) : row := csv_row op.2.1 op.1 op.2.2.

(** What a location holds before the first data row is appended to it. *)
Definition file_base (w : world) (path : string) : list row :=
  match files w !! path with Some c => c | None => [csv_headers] end.

(** ** run_polling_loop *)

Definition backoff_initial : Q := 2.
Definition max_retries : nat := 6.

(** [backoff_initial * (2 ** (attempt - 1))] *)
Definition backoff_wait (attempt : nat) : Q :=
  (backoff_initial * inject_Z (2 ^ Z.of_nat (attempt - 1)))%Q.

(** The [while True] loop around one batch.  [None] is fuel exhaustion;
    the result is the updated [call_count] and world. *)
Fixpoint retry_loop (fuel : nat) (svc : service) (out_dir : string)
    (batch : list string) (attempt call_count : nat) (w : world)
    : option (nat * world) :=
  match fuel with
  | O => None
  | S fuel' =>
      let w := log_event (EFetch (now w) attempt batch) w in
      match videos_list_stats svc batch w with
      | (w, inr snaps) =>
          Some (S call_count, append_rows_to_csv out_dir snaps w)
      | (w, inl status) =>
          let attempt := S attempt in
          if (max_retries <? attempt)%nat then Some (call_count, w)
          else
            let wait := backoff_wait attempt in
            retry_loop fuel' svc out_dir batch attempt call_count
                       (sleep wait w)
      end
  end.

(** [for batch in vid_batches], with its deadline test and [break]. *)
Fixpoint batch_loop (fuel : nat) (svc : service) (out_dir : string)
    (end_ : Q) (batches : list (list string)) (call_count : nat) (w : world)
    : option (nat * world) :=
  match batches with
  | [] => Some (call_count, w)
  | batch :: rest =>
      if Qle_bool end_ (now w) then Some (call_count, w)
      else
        match retry_loop fuel svc out_dir batch 0 call_count w with
        | None => None
        | Some (call_count, w) =>
            batch_loop fuel svc out_dir end_ rest call_count w
        end
  end.

Inductive outcome :=
  | Aborted      (* the quota safeguard returned before the loop *)
  | Completed    (* "Polling window complete." *)
  | Crashed      (* ZeroDivisionError, or ValueError of a negative sleep *)
  | OutOfFuel.

(** [while datetime.datetime.utcnow() < end]. *)
Fixpoint while_loop (fuel : nat) (svc : service) (out_dir : string)
    (interval : Z) (end_ : Q) (batches : list (list string))
    (call_count : nat) (w : world) : outcome * nat * world :=
  match fuel with
  | O => (OutOfFuel, call_count, w)
  | S fuel' =>
      if Qle_bool end_ (now w) then (Completed, call_count, w)
      else
        let w := log_event (ERound (now w)) w in
        match batch_loop (S max_retries) svc out_dir end_ batches
                         call_count w with
        | None => (OutOfFuel, call_count, w)
        | Some (call_count, w) =>
            if interval <? 0 then (Crashed, call_count, w)
            else while_loop fuel' svc out_dir interval end_ batches
                            call_count (sleep (inject_Z interval) w)
        end
  end.

Definition run_polling_loop (fuel : nat) (svc : service)
    (video_ids : list string) (out_dir : string) (interval : Z)
    (t0_hours : Q) (max_calls : option Z) (w : world)
    : outcome * nat * world :=
  let w := ensure_out_dirs out_dir video_ids w in
  let start := now w in
  let end_ := (start + t0_hours * 3600)%Q in
  match estimate_calls (length video_ids) interval t0_hours with
  | None => (Crashed, 0%nat, w)
  | Some intervals =>
      if match max_calls with
         | Some m => m <? intervals
         | None => false
         end
      then (Aborted, 0%nat, w)
      else while_loop fuel svc out_dir interval end_ (vid_batches video_ids)
                      0 w
  end.

(** The world after one request of the retry loop: the attempt is traced,
    the request counted and its duration added to the clock. *)
Definition after_request (svc : service) (batch : list string)
    (attempt : nat) (w : world) : world :=
  World (now w + elapsed (svc (requests w) batch)) (S (requests w)) (files w)
        (log w ++ [EFetch (now w) attempt batch]).

(** ** Observations on a trace *)

Definition is_fetch (e : event) : bool :=
  match e with EFetch _ _ _ => true | _ => false end.

Definition is_write (e : event) : bool :=
  match e with EWrite _ _ => true | _ => false end.

Definition fetch_count (l : list event) : nat := length (filter is_fetch l).

Definition write_count (l : list event) : nat := length (filter is_write l).

Definition sleeps (l : list event) : list Q :=
  omap (fun e => match e with ESleep s => Some s | _ => None end) l.

Definition rows_written (l : list event) : list row :=
  omap (fun e => match e with EWrite _ r => Some r | _ => None end) l.

Definition writes_to (path : string) (l : list event) : list row :=
  omap (fun e => match e with
                 | EWrite p r => if String.eqb p path then Some r else None
                 | _ => None
                 end) l.

Definition Qsum (l : list Q) : Q := foldr Qplus 0%Q l.

(** Events of the file sink: directory creation and row writes. *)
Definition is_sink (e : event) : bool :=
  match e with EMkdir _ | EWrite _ _ => true | _ => false end.

#[global] Instance Q_eq_dec : EqDecision Q.
Proof. solve_decision. Defined.

#[global] Instance cell_eq_dec : EqDecision cell.
Proof. solve_decision. Defined.

(** The rows other than the header row.  A row built by [csv_row] has a
    time in its second field and so is never the header. *)
Definition data_rows (rows : list row) : list row :=
  filter (fun r => r <> csv_headers) rows.

Definition header_rows (rows : list row) : list row :=
  filter (fun r => r = csv_headers) rows.

(** The [video_id] and [ts_utc] fields of a row. *)
Definition row_vid (r : row) : option string :=
  match r with CStr v :: _ => Some v | _ => None end.

Definition row_ts (r : row) : option Q :=
  match r with _ :: CTime t :: _ => Some t | _ => None end.

(** The status classes the module docstring calls transient (429/5xx).
    No function of the source computes this; it only names inputs. *)
Definition transient_status (status : option Z) : bool :=
  match status with
  | Some s => (s =? 429) || ((500 <=? s) && (s <? 600))
  | None => false
  end.

(** The world a run starts from: clock at [t], nothing stored. *)
Definition fresh (t : Q) : world := World t 0 ∅ [].

(** ** Concrete inputs used in the examples *)

Definition vid_of (n : nat) : string := "vid" +:+ pretty n.

(** [n] distinct video ids: vid0, vid1, ... *)
Definition ids (n : nat) : list string := map vid_of (seq 0 n).

(** A service answering every request after [dt] seconds with one item
    per requested id. *)
Definition ok_service (dt : Q) : service := fun _ batch =>
  Response dt
    (Items (map (fun v => Item v (Some 1) None None None (Some "t") None)
                batch)).

(** A service raising [HttpError] with status [st] on every request,
    after [dt] seconds. *)
Definition err_service (dt : Q) (st : Z) : service := fun _ _ =>
  Response dt (HttpError (Some st)).

(** A service that answers only for the first id it is asked about. *)
Definition first_only_service (dt : Q) : service := fun _ batch =>
  Response dt
    (Items (map (fun v => Item v (Some 1) None None None (Some "t") None)
                (take 1 batch))).

Definition is_round (e : event) : bool :=
  match e with ERound _ => true | _ => false end.

(** The first request of a batch ([attempt = 0]) starts before [end_]. *)
Definition first_attempt_before (end_ : Q) (e : event) : Prop :=
  match e with
  | EFetch t O _ => (t < end_)%Q
  | _ => True
  end.

(** ** Credentials, test mode and the entry point *)

Definition CREDENTIAL_PATHS : list string :=
  ["config/token.json"; "credentials.json"].

(** [find_credentials_path]: the first path of the search order that
    exists; [exists_] is [os.path.exists] on the credential files. *)
Fixpoint first_existing (exists_ : string -> bool) (paths : list string)
    : option string :=
  match paths with
  | [] => None
  | p :: rest => if exists_ p then Some p else first_existing exists_ rest
  end.

Definition find_credentials_path (exists_ : string -> bool) : option string :=
  first_existing exists_ CREDENTIAL_PATHS.

(** What [do_test_mode] ends with: the [HttpError] it re-raises, the
    [ZeroDivisionError] of the estimate, or the report it prints. *)
Inductive test_result :=
  | TestRaised (status : option Z)
  | TestZeroDivision
  | TestReport (resp : dict snapshot) (est_calls est_quota : Z).

Definition do_test_mode (svc : service) (video_ids : list string)
    (interval : Z) (t0_hours : Q) (w : world) : test_result * world :=
  let sample_ids := take MAX_BATCH video_ids in
  let w := log_event (EFetch (now w) 0 sample_ids) w in
  match videos_list_stats svc sample_ids w with
  | (w, inl status) => (TestRaised status, w)
  | (w, inr resp) =>
      match estimate_calls (length video_ids) interval t0_hours with
      | None => (TestZeroDivision, w)
      | Some est_calls =>
          (TestReport resp est_calls (est_calls * QUOTA_PER_CALL), w)
      end
  end.

Inductive mode := ModeTest | ModeRun.

(** The parsed command line. *)
Record args := Args {
  arg_mode : mode;
  arg_video : list string;
  arg_interval : Z;
  arg_t0_hours : Q;
  arg_out_dir : string;
  arg_max_calls : option Z }.

Inductive main_result :=
  | Exit2                          (* [sys.exit(2)]: no credentials *)
  | Tested (r : test_result)
  | MainZeroDivision               (* the estimate printed before the prompt *)
  | Cancelled                      (* the answer was not YES *)
  | Ran (o : outcome) (calls : nat).

(** [main], after [parse_args].  [confirm] is the stripped answer to the
    prompt; the credential file found is taken to load, and building the
    client sends nothing. *)
Definition main (fuel : nat) (exists_ : string -> bool) (svc : service)
    (confirm : string) (a : args) (w : world) : main_result * world :=
  match find_credentials_path exists_ with
  | None => (Exit2, w)
  | Some cred_path =>
      let vids := arg_video a in
      match arg_mode a with
      | ModeTest =>
          let r := do_test_mode svc vids (arg_interval a) (arg_t0_hours a) w in
          (Tested r.1, r.2)
      | ModeRun =>
          match estimate_calls (length vids) (arg_interval a)
                               (arg_t0_hours a) with
          | None => (MainZeroDivision, w)
          | Some est_calls =>
              if negb (String.eqb confirm "YES") then (Cancelled, w)
              else
                let r := run_polling_loop fuel svc vids (arg_out_dir a)
                           (arg_interval a) (arg_t0_hours a)
                           (arg_max_calls a) w in
                (Ran r.1.1 r.1.2, r.2)
          end
      end
  end.

(** ** Invariants of the file store and assumptions on the service *)

(** A data row of the file [path]: seven fields, a video id whose CSV path
    is [path], and a time stamp. *)
Definition data_row_of (out_dir path : string) (r : row) : Prop :=
  length r = length csv_headers
  /\ exists vid ts,
       row_vid r = Some vid /\ row_ts r = Some ts
       /\ csv_path_of out_dir vid = path.

(** A file as the sink leaves it: the header, then at least one data
    row, all of them data rows of this file. *)
Definition wf_file (out_dir path : string) (c : list row) : Prop :=
  exists rows,
    c = csv_headers :: rows /\ rows <> []
    /\ Forall (data_row_of out_dir path) rows.

Definition wf_store (out_dir : string) (fs : gmap string (list row)) : Prop :=
  forall path c, fs !! path = Some c -> wf_file out_dir path c.

(** [fs'] holds every file of [fs], each with rows added at its end. *)
Definition store_extends (fs fs' : gmap string (list row)) : Prop :=
  forall path c, fs !! path = Some c -> exists c', fs' !! path = Some (c ++ c').

(** Every file lists its time stamps in non-decreasing order, none of
    them later than [t]. *)
Definition chronological (t : Q) (fs : gmap string (list row)) : Prop :=
  forall path c, fs !! path = Some c ->
    StronglySorted Qle (omap row_ts c)
    /\ Forall (fun ts => (ts <= t)%Q) (omap row_ts c).

(** No request takes negative time. *)
Definition nonneg_service (svc : service) : Prop :=
  forall n batch, (0 <= elapsed (svc n batch))%Q.

Definition round_count (l : list event) : nat := length (filter is_round l).

(** A video id that is a plain path component. *)
Definition plain_id (vid : string) : Prop :=
  vid <> "" /\ startswith_sep vid = false /\ endswith_sep vid = false.

(** A service that fails its first [k] requests with status [st] and
    answers the later ones. *)
Definition flaky_service (k : nat) (dt : Q) (st : Z) : service := fun n batch =>
  if (n <? k)%nat then err_service dt st n batch else ok_service dt n batch.

(** ** Lemmas on the batch split *)

Section Batches.
Context {A : Type}.
Implicit Types (l : list A) (n i fuel : nat).

Lemma slice_width l i n : slice l i (i + n) = take n (drop i l).
Proof. unfold slice. f_equal. lia. Qed.

Lemma range_from_concat l n :
  (0 < n)%nat ->
  forall fuel i, (length l - i <= fuel)%nat ->
    concat (map (fun k => slice l k (k + n))
                (range_from fuel i (length l) n)) = drop i l.
Proof.
  intros Hn fuel. induction fuel as [|fuel IH]; intros i Hfuel; simpl.
  - symmetry. apply drop_ge. lia.
  - destruct (Nat.ltb_spec i (length l)) as [Hlt|Hge]; simpl.
    + rewrite IH by lia. rewrite slice_width.
      rewrite <- (take_drop n (drop i l)) at 2.
      by rewrite drop_drop.
    + symmetry. apply drop_ge. lia.
Qed.

Lemma batches_of_concat l n : (0 < n)%nat -> concat (batches_of n l) = l.
Proof.
  intros Hn. unfold batches_of, py_range.
  rewrite range_from_concat by lia. apply drop_0.
Qed.

Lemma batches_of_bounded l n :
  Forall (fun b => (length b <= n)%nat) (batches_of n l).
Proof.
  unfold batches_of. apply Forall_map, Forall_forall. intros i _.
  rewrite slice_width, length_take. lia.
Qed.

Lemma range_from_lt fuel i stop n :
  Forall (fun k => (k < stop)%nat) (range_from fuel i stop n).
Proof.
  revert i. induction fuel as [|fuel IH]; intros i; simpl; [constructor|].
  destruct (Nat.ltb_spec i stop); constructor; auto.
Qed.

Lemma batches_of_nonempty l n :
  (0 < n)%nat -> Forall (fun b => b <> []) (batches_of n l).
Proof.
  intros Hn. unfold batches_of, py_range. apply Forall_map.
  eapply Forall_impl; [apply range_from_lt|]. simpl.
  intros i Hi Hnil. apply (f_equal length) in Hnil.
  rewrite slice_width, length_take, length_drop in Hnil.
  simpl in Hnil. lia.
Qed.

Lemma range_from_length n :
  (0 < n)%nat ->
  forall fuel i stop, (stop - i <= fuel)%nat ->
    length (range_from fuel i stop n) = ceil_div (stop - i) n.
Proof.
  intros Hn fuel. unfold ceil_div.
  induction fuel as [|fuel IH]; intros i stop Hfuel; simpl.
  - replace (stop - i)%nat with 0%nat by lia. simpl.
    symmetry. apply Nat.div_small. lia.
  - destruct (Nat.ltb_spec i stop) as [Hlt|Hge]; simpl.
    + rewrite IH by lia.
      destruct (Nat.le_gt_cases (stop - i) n) as [Hle|Hgt].
      * replace (stop - (i + n))%nat with 0%nat by lia.
        replace ((0 + n - 1) `div` n)%nat with 0%nat
          by (symmetry; apply Nat.div_small; lia).
        replace (stop - i + n - 1)%nat with ((stop - i - 1) + 1 * n)%nat by lia.
        rewrite Nat.div_add by lia.
        rewrite Nat.div_small; lia.
      * replace (stop - i + n - 1)%nat
          with ((stop - (i + n) + n - 1) + 1 * n)%nat by lia.
        rewrite Nat.div_add by lia. lia.
    + replace (stop - i)%nat with 0%nat by lia. simpl.
      symmetry. apply Nat.div_small. lia.
Qed.

Lemma batches_of_length l n :
  (0 < n)%nat -> length (batches_of n l) = ceil_div (length l) n.
Proof.
  intros Hn. unfold batches_of, py_range.
  rewrite length_map, range_from_length by lia. f_equal. lia.
Qed.
End Batches.

Section BatchShape.
Context {A : Type}.
Implicit Types (l : list A) (n i fuel : nat).

Lemma range_from_lookup n fuel i stop k x :
  range_from fuel i stop n !! k = Some x -> x = (i + k * n)%nat.
Proof.
  revert i k. induction fuel as [|fuel IH]; intros i k; simpl; [done|].
  destruct (i <? stop)%nat; [|done].
  destruct k as [|k]; simpl.
  - intros [= <-]. lia.
  - intros H. apply IH in H. lia.
Qed.

Lemma batches_of_lookup l n k b :
  batches_of n l !! k = Some b -> b = take n (drop (k * n) l).
Proof.
  unfold batches_of, py_range. rewrite list_lookup_fmap.
  destruct (range_from _ _ _ _ !! k) as [x|] eqn:Hx; [|done].
  apply range_from_lookup in Hx. simpl in Hx. subst x.
  intros [= <-]. apply slice_width.
Qed.

Lemma batches_of_sizes l n :
  map length (batches_of n l)
  = map (fun i => (n `min` (length l - i))%nat) (py_range (length l) n).
Proof.
  unfold batches_of. rewrite map_map. apply map_ext. intros i.
  by rewrite slice_width, length_take, length_drop.
Qed.
End BatchShape.

(** ** The quota estimate *)

Lemma estimate_calls_num_videos n m interval t0_hours :
  estimate_calls n interval t0_hours = estimate_calls m interval t0_hours.
Proof. reflexivity. Qed.

Lemma ceil_div_one n k : (0 < n <= k)%nat -> ceil_div n k = 1%nat.
Proof.
  intros H. unfold ceil_div.
  replace (n + k - 1)%nat with ((n - 1) + 1 * k)%nat by lia.
  rewrite Nat.div_add by lia. rewrite Nat.div_small; lia.
Qed.

(** With at most one batch per round the estimate is the specified one. *)
Lemma estimate_calls_single_batch n interval t0_hours :
  (0 < n <= MAX_BATCH)%nat -> interval <> 0 ->
  estimate_calls n interval t0_hours
  = Some (spec_total_calls n MAX_BATCH interval t0_hours).
Proof.
  intros Hn Hi. unfold estimate_calls, spec_total_calls, spec_rounds.
  rewrite ceil_div_one by done.
  destruct (Z.eqb_spec interval 0); [done|]. f_equal. lia.
Qed.

Lemma ceil_div_two n k : (0 < k < n)%nat -> (2 <= ceil_div n k)%nat.
Proof.
  intros H. unfold ceil_div. apply Nat.div_le_lower_bound; lia.
Qed.

(** With more than [MAX_BATCH] ids and at least one round, the estimate is
    below the number of calls the specification counts. *)
Lemma estimate_calls_below_spec n interval t0_hours planned :
  (MAX_BATCH < n)%nat ->
  estimate_calls n interval t0_hours = Some planned ->
  0 < planned ->
  planned < spec_total_calls n MAX_BATCH interval t0_hours.
Proof.
  intros Hn Hest Hpos. unfold estimate_calls in Hest.
  destruct (interval =? 0); [done|]. injection Hest as <-.
  unfold spec_total_calls, spec_rounds.
  pose proof (ceil_div_two n MAX_BATCH) as Htwo. unfold MAX_BATCH in *.
  nia.
Qed.

(** C1: the estimate used for the run is specified as rounds times
    batches per round, 180 for 120 ids, 60 s and 1 h.  The code returns the
    number of rounds alone: [estimate_calls] gives 60 where the specified
    value is 180, although the same ids are split into 3 batches per round.
    Over a window of one round the plan is 1 call, so [--max_calls 1] lets
    the run start, and it sends 3 requests. *)
Theorem estimate_calls_omits_batches :
  estimate_calls 120 60 1 = Some 60
  /\ spec_total_calls 120 MAX_BATCH 60 1 = 180
  /\ map length (vid_batches (ids 120)) = [50; 50; 20]%nat
  /\ estimate_calls 120 60 (1 # 60) = Some 1
  /\ (let r := run_polling_loop 5 (ok_service 0) (ids 120) "data" 60 (1 # 60)
                                (Some 1) (fresh 0) in
      r.1 = (Completed, 3%nat) /\ requests r.2 = 3%nat).
Proof. vm_compute. repeat split; reflexivity. Qed.

(** ** The batch split, as a planner *)

(** C6: for every list and every positive batch size the split is a
    sequence of contiguous slices (the k-th is the [n] elements from
    position [k * n]), none larger than [n], whose concatenation is the
    input; 120 ids are split into batches of 50, 50 and 20. *)
Theorem batch_plan_partition {A} (l : list A) (n : nat) :
  (0 < n)%nat ->
  concat (batches_of n l) = l
  /\ Forall (fun b => (length b <= n)%nat) (batches_of n l)
  /\ (forall k b, batches_of n l !! k = Some b -> b = take n (drop (k * n) l))
  /\ (forall video_ids : list string,
        length video_ids = 120%nat ->
        map length (vid_batches video_ids) = [50; 50; 20]%nat).
Proof.
  intros Hn. split; [by apply batches_of_concat|].
  split; [apply batches_of_bounded|].
  split; [apply batches_of_lookup|].
  intros video_ids Hlen. unfold vid_batches.
  rewrite batches_of_sizes, Hlen. reflexivity.
Qed.

Lemma batch_plan_partition_witness :
  (0 < 2)%nat /\ concat (batches_of 2 [1; 2; 3; 4; 5]%nat) = [1; 2; 3; 4; 5]%nat.
Proof.
  split; [lia|].
  apply (batch_plan_partition [1; 2; 3; 4; 5]%nat 2). lia.
Defined.

(** ** Observations distribute over concatenated traces *)

Lemma fetch_count_app l1 l2 :
  fetch_count (l1 ++ l2) = (fetch_count l1 + fetch_count l2)%nat.
Proof. unfold fetch_count. by rewrite filter_app, length_app. Qed.

Lemma write_count_app l1 l2 :
  write_count (l1 ++ l2) = (write_count l1 + write_count l2)%nat.
Proof. unfold write_count. by rewrite filter_app, length_app. Qed.

Lemma sleeps_app l1 l2 : sleeps (l1 ++ l2) = sleeps l1 ++ sleeps l2.
Proof. apply omap_app. Qed.

Lemma rows_written_app l1 l2 :
  rows_written (l1 ++ l2) = rows_written l1 ++ rows_written l2.
Proof. apply omap_app. Qed.

Lemma data_rows_app r1 r2 : data_rows (r1 ++ r2) = data_rows r1 ++ data_rows r2.
Proof. apply filter_app. Qed.

Lemma csv_row_not_header vid ts rec : csv_row vid ts rec <> csv_headers.
Proof. discriminate. Qed.

(** ** The quota safeguard *)

Lemma makedirs_fold_frame (f : string -> string) l w0 :
  let w' := foldl (fun w v => makedirs (f v) w) w0 l in
  now w' = now w0 /\ requests w' = requests w0 /\ files w' = files w0
  /\ fetch_count (log w') = fetch_count (log w0)
  /\ write_count (log w') = write_count (log w0).
Proof.
  revert w0. induction l as [|v l IH]; intros w0; simpl; [done|].
  destruct (IH (makedirs (f v) w0)) as (Hn & Hr & Hf & Hfc & Hwc).
  rewrite Hn, Hr, Hf, Hfc, Hwc. simpl.
  rewrite fetch_count_app, write_count_app. simpl. repeat split; try done; lia.
Qed.

Lemma ensure_out_dirs_frame out_dir video_ids w :
  let w' := ensure_out_dirs out_dir video_ids w in
  now w' = now w /\ requests w' = requests w /\ files w' = files w
  /\ fetch_count (log w') = fetch_count (log w)
  /\ write_count (log w') = write_count (log w).
Proof.
  unfold ensure_out_dirs.
  destruct (makedirs_fold_frame (path_join out_dir) video_ids
              (makedirs out_dir w)) as (Hn & Hr & Hf & Hfc & Hwc).
  simpl. rewrite Hn, Hr, Hf, Hfc, Hwc. simpl.
  rewrite fetch_count_app, write_count_app. simpl. repeat split; try done; lia.
Qed.

(** C2: when [max_calls] is set and the planned number of calls computed
    before the loop exceeds it, the run ends as [Aborted]: no request has
    been sent, no row has been written and the stored files are those it
    started with. *)
Theorem quota_preflight_aborts fuel svc video_ids out_dir interval t0_hours
    (m planned : Z) w :
  estimate_calls (length video_ids) interval t0_hours = Some planned ->
  m < planned ->
  let r := run_polling_loop fuel svc video_ids out_dir interval t0_hours
                            (Some m) w in
  r.1 = (Aborted, 0%nat)
  /\ requests r.2 = requests w
  /\ fetch_count (log r.2) = fetch_count (log w)
  /\ write_count (log r.2) = write_count (log w)
  /\ files r.2 = files w.
Proof.
  intros Hest Hlt. unfold run_polling_loop. rewrite Hest.
  destruct (Z.ltb_spec m planned) as [_|Hge]; [|lia]. simpl.
  destruct (ensure_out_dirs_frame out_dir video_ids w)
    as (_ & Hr & Hf & Hfc & Hwc).
  auto.
Qed.

Lemma quota_preflight_aborts_witness :
  let r := run_polling_loop 100 (ok_service 1) (ids 3) "data" 60 3 (Some 100)
                            (fresh 0) in
  r.1 = (Aborted, 0%nat) /\ fetch_count (log r.2) = 0%nat
  /\ write_count (log r.2) = 0%nat /\ files r.2 = ∅.
Proof.
  destruct (quota_preflight_aborts 100 (ok_service 1) (ids 3) "data" 60 3
              100 180 (fresh 0)) as (H1 & _ & H2 & H3 & H4).
  - reflexivity.
  - lia.
  - repeat split; assumption.
Defined.

(** ** One pass of the retry loop *)

Lemma retry_loop_error fuel svc out_dir batch attempt cc w st :
  result (svc (requests w) batch) = HttpError st ->
  retry_loop (S fuel) svc out_dir batch attempt cc w
  = if (max_retries <? S attempt)%nat
    then Some (cc, after_request svc batch attempt w)
    else retry_loop fuel svc out_dir batch (S attempt) cc
           (sleep (backoff_wait (S attempt))
                  (after_request svc batch attempt w)).
Proof.
  intros H. simpl. unfold videos_list_stats. simpl. by rewrite H.
Qed.

Lemma retry_loop_success fuel svc out_dir batch attempt cc w items :
  result (svc (requests w) batch) = Items items ->
  retry_loop (S fuel) svc out_dir batch attempt cc w
  = Some (S cc, append_rows_to_csv out_dir (decode_items items)
                  (after_request svc batch attempt w)).
Proof.
  intros H. simpl. unfold videos_list_stats. simpl. by rewrite H.
Qed.

(** A batch whose every request raises [HttpError]: from [attempt] the
    loop sends [max_retries - attempt + 1] requests, sleeps between them
    and returns with [call_count] unchanged. *)
Lemma retry_loop_exhausts svc out_dir batch cc :
  (forall n, exists st, result (svc n batch) = HttpError st) ->
  forall k attempt fuel w,
    (attempt + k = max_retries)%nat -> (k < fuel)%nat ->
    exists w' evs,
      retry_loop fuel svc out_dir batch attempt cc w = Some (cc, w')
      /\ files w' = files w
      /\ requests w' = (requests w + S k)%nat
      /\ log w' = log w ++ evs
      /\ fetch_count evs = S k
      /\ write_count evs = 0%nat
      /\ sleeps evs = map backoff_wait (seq (S attempt) k).
Proof.
  intros Hfail k. induction k as [|k IH]; intros attempt fuel w Hk Hfuel;
    (destruct fuel as [|fuel]; [lia|]);
    destruct (Hfail (requests w)) as [st Hst];
    rewrite (retry_loop_error _ _ _ _ _ _ _ _ Hst);
    unfold max_retries in *.
  - destruct (Nat.ltb_spec 6 (S attempt)) as [_|?]; [|lia].
    eexists _, [_]. unfold after_request. simpl.
    repeat split; simpl; try done; lia.
  - destruct (Nat.ltb_spec 6 (S attempt)) as [?|_]; [lia|].
    destruct (IH (S attempt) fuel
                 (sleep (backoff_wait (S attempt))
                        (after_request svc batch attempt w)))
      as (w' & evs & Hrun & Hf & Hr & Hlog & Hfc & Hwc & Hsl); [lia..|].
    exists w', ([EFetch (now w) attempt batch;
                 ESleep (backoff_wait (S attempt))] ++ evs).
    rewrite Hrun, Hf, Hr, Hlog. unfold after_request. simpl.
    rewrite <- !app_assoc. simpl.
    repeat split; simpl; try done; try lia.
    + change (fetch_count (EFetch (now w) attempt batch
                           :: ESleep (backoff_wait (S attempt)) :: evs))
        with (S (fetch_count evs)). lia.
    + by rewrite Hsl.
Qed.

(** C3 (as amended): a batch whose request fails with a transient error
    (status 429 or 5xx) on every attempt is tried 7 times, the first
    attempt and [max_retries] = 6 retries; after the k-th failure,
    k = 1..6, the loop sleeps [backoff_initial * 2^(k-1)] seconds, that is
    2, 4, 8, 16, 32, 64 and 126 seconds in all; the batch is then given up:
    nothing is written and [call_count] is unchanged. *)
Theorem retry_exhaustion_schedule fuel svc out_dir batch cc w :
  (forall n, exists st,
      transient_status st = true /\ result (svc n batch) = HttpError st) ->
  (max_retries < fuel)%nat ->
  exists w' evs,
    retry_loop fuel svc out_dir batch 0 cc w = Some (cc, w')
    /\ log w' = log w ++ evs
    /\ fetch_count evs = 7%nat
    /\ sleeps evs = map backoff_wait [1; 2; 3; 4; 5; 6]%nat
    /\ sleeps evs = [2; 4; 8; 16; 32; 64]%Q
    /\ Qsum (sleeps evs) = 126%Q
    /\ write_count evs = 0%nat
    /\ files w' = files w.
Proof.
  intros Htransient Hfuel.
  assert (forall n, exists st, result (svc n batch) = HttpError st) as Hfail.
  { intros n. destruct (Htransient n) as (st & _ & Hst). by exists st. }
  destruct (retry_loop_exhausts svc out_dir batch cc Hfail 6 0%nat fuel w)
    as (w' & evs & Hrun & Hf & Hr & Hlog & Hfc & Hwc & Hsl); [done..|].
  exists w', evs. rewrite Hsl. repeat split; done.
Qed.

Lemma retry_exhaustion_schedule_witness :
  exists w' evs,
    retry_loop 7 (err_service 1 503) "data" ["vid0"] 0 0 (fresh 0)
    = Some (0%nat, w')
    /\ log w' = evs /\ fetch_count evs = 7%nat
    /\ Qsum (sleeps evs) = 126%Q.
Proof.
  destruct (retry_exhaustion_schedule 7 (err_service 1 503) "data" ["vid0"]
              0 (fresh 0))
    as (w' & evs & Hrun & Hlog & Hfc & _ & _ & Hsum & _).
  - intros n. exists (Some 503). split; reflexivity.
  - unfold max_retries. lia.
  - exists w', evs. repeat split; assumption.
Defined.

(** C3 (as stated) fails: with a service answering 503 to every request,
    the loop does not stop after 6 attempts. *)
Lemma six_attempts_refuted :
  ~ (forall svc out_dir batch cc w,
       (forall n, exists st,
           transient_status st = true
           /\ result (svc n batch) = HttpError st) ->
       exists w',
         retry_loop (S max_retries) svc out_dir batch 0 cc w = Some (cc, w')
         /\ fetch_count (log w') = (fetch_count (log w) + 6)%nat).
Proof.
  intros H.
  destruct (H (err_service 1 503) "data" ["vid0"] 0%nat (fresh 0))
    as (w' & Hrun & Hcount).
  - intros n. exists (Some 503). split; reflexivity.
  - vm_compute in Hrun. injection Hrun as <-. vm_compute in Hcount.
    discriminate.
Qed.

(** C4: a first attempt failing with a non-transient status is specified
    to end the batch after exactly 1 attempt and no sleep.  The loop
    catches every [HttpError] alike: on status 403 it sends 7 requests and
    sleeps 2, 4, ..., 64 seconds between them. *)
Theorem non_transient_error_is_retried :
  transient_status (Some 403) = false
  /\ exists w',
       retry_loop (S max_retries) (err_service 1 403) "data" ["vid0"] 0 0
                  (fresh 0) = Some (0%nat, w')
       /\ fetch_count (log w') = 7%nat
       /\ sleeps (log w') = [2; 4; 8; 16; 32; 64]%Q
       /\ requests w' = 7%nat.
Proof.
  split; [reflexivity|]. eexists. split; [vm_compute; reflexivity|].
  vm_compute. repeat split; reflexivity.
Qed.

(** ** The CSV sink *)

Lemma write_snapshot_files out_dir ts w entry :
  files (write_snapshot out_dir ts w entry)
  = <[csv_path_of out_dir entry.1 :=
        file_base w (csv_path_of out_dir entry.1)
        ++ [csv_row entry.1 ts entry.2]]> (files w).
Proof.
  unfold write_snapshot, file_base, csv_path_of, path_exists. simpl.
  destruct (files w !! _) as [c|] eqn:Hc; simpl.
  - by rewrite Hc.
  - rewrite lookup_insert_eq, Hc. simpl. by rewrite insert_insert_eq.
Qed.

Lemma write_snapshot_lookup out_dir ts w entry :
  files (write_snapshot out_dir ts w entry) !! csv_path_of out_dir entry.1
  = Some (file_base w (csv_path_of out_dir entry.1)
          ++ [csv_row entry.1 ts entry.2]).
Proof. rewrite write_snapshot_files. apply lookup_insert_eq. Qed.

Lemma write_snapshot_lookup_ne out_dir ts w entry p :
  csv_path_of out_dir entry.1 <> p ->
  files (write_snapshot out_dir ts w entry) !! p = files w !! p.
Proof. intros H. rewrite write_snapshot_files. by apply lookup_insert_ne. Qed.

(** The contents of a location after any sequence of append operations:
    those aimed at it add their data rows, in order, after what was there,
    or after a header if nothing was. *)
Lemma append_ops_lookup out_dir p ops : forall w,
  files (append_ops out_dir w ops) !! p
  = match filter (fun op => op_path out_dir op = p) ops with
    | [] => files w !! p
    | mine => Some (file_base w p ++ map op_row mine)
    end.
Proof.
  induction ops as [|op ops IH]; intros w; [done|].
  unfold append_ops in *. simpl. rewrite IH. clear IH.
  destruct (decide (op_path out_dir op = p)) as [<-|Hne].
  - rewrite filter_cons_True by done.
    change (op_path out_dir op) with (csv_path_of out_dir op.2.1).
    unfold file_base at 1. rewrite write_snapshot_lookup.
    destruct (filter _ ops); simpl; [done|].
    by rewrite <- app_assoc.
  - rewrite filter_cons_False by done. unfold op_path in Hne.
    unfold file_base. rewrite write_snapshot_lookup_ne by done.
    by destruct (filter _ ops).
Qed.

Lemma data_rows_op_rows ops : data_rows (map op_row ops) = map op_row ops.
Proof.
  unfold data_rows. induction ops as [|op ops IH]; [done|]. simpl.
  rewrite filter_cons_True by apply csv_row_not_header. by rewrite IH.
Qed.

Lemma header_rows_op_rows ops : header_rows (map op_row ops) = [].
Proof.
  unfold header_rows. induction ops as [|op ops IH]; [done|]. simpl.
  rewrite filter_cons_False; [done|].
  intros H. by apply (csv_row_not_header op.2.1 op.1 op.2.2).
Qed.

Lemma header_rows_header rows :
  header_rows (csv_headers :: rows) = csv_headers :: header_rows rows.
Proof. unfold header_rows. by rewrite filter_cons_True. Qed.

Lemma data_rows_header rows : data_rows (csv_headers :: rows) = data_rows rows.
Proof.
  unfold data_rows. rewrite filter_cons_False; [done|]. intros H. by apply H.
Qed.

Lemma data_rows_csv_row vid ts rec rows :
  data_rows (csv_row vid ts rec :: rows) = csv_row vid ts rec :: data_rows rows.
Proof.
  unfold data_rows. by rewrite filter_cons_True by apply csv_row_not_header.
Qed.

(** C7: after any sequence of append operations of which N > 0 go to the
    location [p], a location that did not exist holds one header row
    followed by the N data rows; a location that existed holds what it
    held followed by the N data rows, so that no header is added to it. *)
Theorem csv_header_written_once out_dir p ops w :
  let mine := filter (fun op => op_path out_dir op = p) ops in
  let w' := append_ops out_dir w ops in
  mine <> [] ->
  (files w !! p = None ->
     files w' !! p = Some (csv_headers :: map op_row mine)
     /\ length (header_rows (csv_headers :: map op_row mine)) = 1%nat
     /\ length (data_rows (csv_headers :: map op_row mine)) = length mine)
  /\ (forall c, files w !! p = Some c ->
        files w' !! p = Some (c ++ map op_row mine)
        /\ header_rows (c ++ map op_row mine) = header_rows c
        /\ length (data_rows (c ++ map op_row mine))
           = (length (data_rows c) + length mine)%nat).
Proof.
  intros mine w' Hmine. subst w'.
  pose proof (append_ops_lookup out_dir p ops w) as Hlook.
  fold mine in Hlook. clearbody mine.
  assert (Hfile : files (append_ops out_dir w ops) !! p
                  = Some (file_base w p ++ map op_row mine))
    by (by destruct mine).
  clear Hlook. rewrite Hfile. unfold file_base. split.
  - intros Hnone. rewrite Hnone.
    split; [done|]. rewrite header_rows_header, data_rows_header.
    by rewrite header_rows_op_rows, data_rows_op_rows, length_map.
  - intros c Hc. rewrite Hc.
    split; [done|]. unfold header_rows. rewrite filter_app.
    fold (header_rows (map op_row mine)). rewrite header_rows_op_rows.
    rewrite data_rows_app, data_rows_op_rows, length_app, length_map.
    by rewrite app_nil_r.
Qed.

Lemma csv_header_written_once_witness :
  let s := Snapshot (Some 7) None None None (Some "t") None in
  let ops := [(1%Q, ("vid0", s)); (2%Q, ("vid1", s)); (3%Q, ("vid0", s))] in
  files (append_ops "data" (fresh 0) ops) !! "data/vid0/polls.csv"
  = Some [csv_headers; csv_row "vid0" 1 s; csv_row "vid0" 3 s].
Proof.
  intros s ops.
  destruct (csv_header_written_once "data" "data/vid0/polls.csv" ops
              (fresh 0)) as [Hnew _].
  - vm_compute. discriminate.
  - destruct Hnew as [Hfile _]; [reflexivity|]. exact Hfile.
Defined.

(** [append_rows_to_csv] is a sequence of append operations that share
    the time read at its start. *)
Lemma append_rows_as_ops out_dir snapshots w :
  append_rows_to_csv out_dir snapshots w
  = append_ops out_dir w (map (fun entry => (now w, entry)) snapshots).
Proof.
  unfold append_rows_to_csv, append_ops. generalize (now w) as ts. intros ts.
  revert w. induction snapshots as [|entry snapshots IH]; intros w; [done|].
  simpl. apply IH.
Qed.

Lemma is_sink_no_fetch evs : Forall is_sink evs -> fetch_count evs = 0%nat.
Proof.
  induction 1 as [|e evs He _ IH]; [done|].
  destruct e; try done; apply IH.
Qed.

Lemma is_sink_no_sleep evs : Forall is_sink evs -> sleeps evs = [].
Proof.
  induction 1 as [|e evs He _ IH]; [done|].
  destruct e; try done; apply IH.
Qed.

Lemma write_snapshot_log out_dir ts w entry :
  exists evs,
    log (write_snapshot out_dir ts w entry) = log w ++ evs
    /\ Forall is_sink evs
    /\ data_rows (rows_written evs) = [csv_row entry.1 ts entry.2]
    /\ now (write_snapshot out_dir ts w entry) = now w
    /\ requests (write_snapshot out_dir ts w entry) = requests w.
Proof.
  unfold write_snapshot. destruct (negb _); simpl.
  - exists [EMkdir (path_join out_dir entry.1);
            EWrite (path_join (path_join out_dir entry.1) "polls.csv")
                   csv_headers;
            EWrite (path_join (path_join out_dir entry.1) "polls.csv")
                   (csv_row entry.1 ts entry.2)].
    rewrite <- !app_assoc. simpl. repeat split; try done.
    + by repeat constructor.
    + by rewrite ?data_rows_header, data_rows_csv_row.
  - exists [EMkdir (path_join out_dir entry.1);
            EWrite (path_join (path_join out_dir entry.1) "polls.csv")
                   (csv_row entry.1 ts entry.2)].
    rewrite <- !app_assoc. simpl. repeat split; try done.
    + by repeat constructor.
    + by rewrite ?data_rows_header, data_rows_csv_row.
Qed.

Lemma append_ops_log out_dir ops : forall w,
  exists evs,
    log (append_ops out_dir w ops) = log w ++ evs
    /\ Forall is_sink evs
    /\ data_rows (rows_written evs) = map op_row ops
    /\ now (append_ops out_dir w ops) = now w
    /\ requests (append_ops out_dir w ops) = requests w.
Proof.
  induction ops as [|op ops IH]; intros w.
  - exists []. by rewrite app_nil_r.
  - unfold append_ops in *. simpl.
    destruct (write_snapshot_log out_dir op.1 w op.2)
      as (e1 & Hlog1 & Hs1 & Hd1 & Hn1 & Hr1).
    destruct (IH (write_snapshot out_dir op.1 w op.2))
      as (e2 & Hlog2 & Hs2 & Hd2 & Hn2 & Hr2).
    exists (e1 ++ e2). rewrite Hlog2, Hlog1, Hn2, Hn1, Hr2, Hr1.
    rewrite <- app_assoc, rows_written_app, data_rows_app, Hd1, Hd2.
    repeat split; try done. by apply Forall_app.
Qed.

Lemma append_rows_log out_dir snapshots w :
  exists evs,
    log (append_rows_to_csv out_dir snapshots w) = log w ++ evs
    /\ Forall is_sink evs
    /\ data_rows (rows_written evs)
       = map (fun entry => csv_row entry.1 (now w) entry.2) snapshots
    /\ now (append_rows_to_csv out_dir snapshots w) = now w
    /\ requests (append_rows_to_csv out_dir snapshots w) = requests w.
Proof.
  rewrite append_rows_as_ops.
  destruct (append_ops_log out_dir
              (map (fun entry => (now w, entry)) snapshots) w)
    as (evs & Hlog & Hs & Hd & Hn & Hr).
  exists evs. rewrite Hd, map_map. done.
Qed.

(** ** The decoded response is a mapping *)

Lemma dict_keys_set {V} k (v : V) d :
  dict_keys (dict_set k v d)
  = if bool_decide (k ∈ dict_keys d) then dict_keys d else dict_keys d ++ [k].
Proof.
  induction d as [|[k' v'] d IH]; simpl; [done|].
  destruct (String.eqb_spec k' k) as [->|Hne]; simpl.
  - rewrite bool_decide_eq_true_2 by (by left). done.
  - rewrite IH. destruct (decide (k ∈ dict_keys d)) as [Hin|Hnin].
    + rewrite !bool_decide_eq_true_2; [done| by right |done].
    + rewrite !bool_decide_eq_false_2; [done| |done].
      intros [?|?]%elem_of_cons; congruence.
Qed.

Lemma dict_set_NoDup {V} k (v : V) d :
  NoDup (dict_keys d) -> NoDup (dict_keys (dict_set k v d)).
Proof.
  intros Hd. rewrite dict_keys_set. case_bool_decide; [done|].
  apply NoDup_app. split; [done|]. split; [|apply NoDup_singleton].
  intros x Hx ->%list_elem_of_singleton. done.
Qed.

Lemma dict_set_keys_elem {V} k (v : V) d x :
  x ∈ dict_keys (dict_set k v d) <-> x = k \/ x ∈ dict_keys d.
Proof.
  rewrite dict_keys_set. case_bool_decide.
  - split; [by right|]. by intros [->|?].
  - rewrite elem_of_app, list_elem_of_singleton. tauto.
Qed.

Lemma dict_get_None {V} k (d : dict V) :
  dict_get k d = None <-> k ∉ dict_keys d.
Proof.
  induction d as [|[k' v'] d IH]; simpl.
  - split; [|done]. intros _ H. by apply elem_of_nil in H.
  - rewrite not_elem_of_cons.
    destruct (String.eqb_spec k' k) as [->|Hne]; [by intuition|].
    rewrite IH. intuition congruence.
Qed.

Lemma decode_from_NoDup items : forall d,
  NoDup (dict_keys d) ->
  NoDup (dict_keys
           (foldl (fun out it => dict_set (it_id it) (snapshot_of it) out)
                  d items)).
Proof.
  induction items as [|it items IH]; intros d Hd; simpl; [done|].
  by apply IH, dict_set_NoDup.
Qed.

Lemma decode_from_keys items x : forall d,
  x ∈ dict_keys
        (foldl (fun out it => dict_set (it_id it) (snapshot_of it) out)
               d items)
  <-> x ∈ dict_keys d \/ x ∈ map it_id items.
Proof.
  induction items as [|it items IH]; intros d; simpl.
  - rewrite elem_of_nil. tauto.
  - rewrite IH, dict_set_keys_elem, elem_of_cons. tauto.
Qed.

Lemma decode_items_NoDup items : NoDup (dict_keys (decode_items items)).
Proof. apply decode_from_NoDup. constructor. Qed.

Lemma decode_items_keys items x :
  x ∈ dict_keys (decode_items items) <-> x ∈ map it_id items.
Proof.
  unfold decode_items. rewrite decode_from_keys. simpl.
  rewrite elem_of_nil. tauto.
Qed.

Lemma row_vid_csv_rows (ts : Q) (d : dict snapshot) :
  omap row_vid (map (fun entry => csv_row entry.1 ts entry.2) d)
  = dict_keys d.
Proof. induction d as [|[k v] d IH]; [done|]. simpl. f_equal. exact IH. Qed.

Lemma filter_eq_absent (l : list string) x :
  x ∉ l -> filter (fun y => y = x) l = [].
Proof.
  induction l as [|y l IH]; [done|]. intros [Hne Hl]%not_elem_of_cons.
  rewrite filter_cons_False by congruence. by apply IH.
Qed.

Lemma NoDup_filter_eq_le (l : list string) x :
  NoDup l -> (length (filter (fun y => y = x) l) <= 1)%nat.
Proof.
  induction 1 as [|y l Hy Hl IH]; [simpl; lia|].
  rewrite filter_cons. case_decide as Hyx; [|done]. subst y. simpl.
  rewrite filter_eq_absent by done. simpl. lia.
Qed.

Lemma NoDup_filter_eq_one (l : list string) x :
  NoDup l -> x ∈ l -> length (filter (fun y => y = x) l) = 1%nat.
Proof.
  intros Hl Hx. pose proof (NoDup_filter_eq_le l x Hl) as Hle.
  assert (x ∈ filter (fun y => y = x) l) as Hin
    by (by apply list_elem_of_filter).
  destruct (filter _ l); [by apply elem_of_nil in Hin|]. simpl in *. lia.
Qed.

(** A successful request of the retry loop: the rows written are one per
    entry of the decoded mapping, stamped with the time at which the
    answer arrived. *)
Lemma retry_loop_success_log fuel svc out_dir batch attempt cc w items :
  result (svc (requests w) batch) = Items items ->
  exists w' evs,
    retry_loop (S fuel) svc out_dir batch attempt cc w = Some (S cc, w')
    /\ log w' = log w ++ EFetch (now w) attempt batch :: evs
    /\ Forall is_sink evs
    /\ data_rows (rows_written evs)
       = map (fun entry => csv_row entry.1 (now w') entry.2)
             (decode_items items)
    /\ now w' = (now w + elapsed (svc (requests w) batch))%Q
    /\ requests w' = S (requests w).
Proof.
  intros Hres. rewrite (retry_loop_success _ _ _ _ _ _ _ _ Hres).
  destruct (append_rows_log out_dir (decode_items items)
              (after_request svc batch attempt w))
    as (evs & Hlog & Hs & Hd & Hn & Hr).
  eexists _, evs. split; [done|].
  rewrite Hlog, Hd, Hn, Hr. simpl. rewrite <- app_assoc. done.
Qed.

(** C9: an id that the remote answer does not mention has no entry in the
    decoded mapping, and the request still counts as a success whose only
    effects are the rows of the ids that were answered: no data row carries
    the missing id, whether or not it was in the batch. *)
Theorem absent_id_is_dropped fuel svc out_dir batch attempt cc w items vid :
  result (svc (requests w) batch) = Items items ->
  vid ∉ map it_id items ->
  dict_get vid (decode_items items) = None
  /\ exists w' evs,
       retry_loop (S fuel) svc out_dir batch attempt cc w = Some (S cc, w')
       /\ log w' = log w ++ EFetch (now w) attempt batch :: evs
       /\ Forall is_sink evs
       /\ vid ∉ omap row_vid (data_rows (rows_written evs)).
Proof.
  intros Hres Hvid.
  assert (vid ∉ dict_keys (decode_items items)) as Hkeys
    by (by rewrite decode_items_keys).
  split; [by apply dict_get_None|].
  destruct (retry_loop_success_log fuel svc out_dir batch attempt cc w items
              Hres) as (w' & evs & Hrun & Hlog & Hs & Hd & _).
  exists w', evs. rewrite Hd, row_vid_csv_rows. done.
Qed.

Lemma absent_id_is_dropped_witness :
  exists w' evs,
    retry_loop 7 (first_only_service 1) "data" ["vid0"; "vid1"] 0 0 (fresh 0)
    = Some (1%nat, w')
    /\ log w' = EFetch 0 0 ["vid0"; "vid1"] :: evs
    /\ "vid1" ∉ omap row_vid (data_rows (rows_written evs)).
Proof.
  destruct (absent_id_is_dropped 6 (first_only_service 1) "data"
              ["vid0"; "vid1"] 0 0 (fresh 0)
              [Item "vid0" (Some 1) None None None (Some "t") None] "vid1")
    as (_ & w' & evs & Hrun & Hlog & _ & Hrows).
  - reflexivity.
  - simpl. intros H. apply list_elem_of_singleton in H. discriminate.
  - exists w', evs. repeat split; assumption.
Defined.

(** C10: whatever the remote answers, also to a batch that repeats an
    id, the decoded mapping has each id once, and the rows appended for
    the batch are one per entry of the mapping: exactly one data row for
    an id that was answered, and never more than one for any id. *)
Theorem duplicate_ids_give_one_row fuel svc out_dir batch attempt cc w items :
  result (svc (requests w) batch) = Items items ->
  NoDup (dict_keys (decode_items items))
  /\ exists w' evs,
       retry_loop (S fuel) svc out_dir batch attempt cc w = Some (S cc, w')
       /\ log w' = log w ++ EFetch (now w) attempt batch :: evs
       /\ omap row_vid (data_rows (rows_written evs))
          = dict_keys (decode_items items)
       /\ (forall vid,
             (length (filter (fun v => v = vid)
                        (omap row_vid (data_rows (rows_written evs)))) <= 1)%nat)
       /\ (forall vid, vid ∈ map it_id items ->
             length (filter (fun v => v = vid)
                       (omap row_vid (data_rows (rows_written evs)))) = 1%nat).
Proof.
  intros Hres. pose proof (decode_items_NoDup items) as Hnd.
  split; [done|].
  destruct (retry_loop_success_log fuel svc out_dir batch attempt cc w items
              Hres) as (w' & evs & Hrun & Hlog & Hs & Hd & _).
  exists w', evs. rewrite Hd, row_vid_csv_rows.
  repeat split; try done.
  - intros vid. by apply NoDup_filter_eq_le.
  - intros vid Hvid. apply NoDup_filter_eq_one; [done|].
    by apply decode_items_keys.
Qed.

Lemma duplicate_ids_give_one_row_witness :
  exists w' evs,
    retry_loop 7 (ok_service 1) "data" ["vid0"; "vid0"; "vid0"] 0 0 (fresh 0)
    = Some (1%nat, w')
    /\ log w' = EFetch 0 0 ["vid0"; "vid0"; "vid0"] :: evs
    /\ omap row_vid (data_rows (rows_written evs)) = ["vid0"].
Proof.
  destruct (duplicate_ids_give_one_row 6 (ok_service 1) "data"
              ["vid0"; "vid0"; "vid0"] 0 0 (fresh 0)
              (map (fun v => Item v (Some 1) None None None (Some "t") None)
                   ["vid0"; "vid0"; "vid0"]))
    as (_ & w' & evs & Hrun & Hlog & Hrows & _).
  - reflexivity.
  - exists w', evs. repeat split; assumption.
Defined.

(** The retry loop never runs out of fuel when given [max_retries + 1]. *)
Lemma retry_loop_total svc out_dir batch cc :
  forall fuel attempt w,
    (max_retries - attempt < fuel)%nat ->
    is_Some (retry_loop fuel svc out_dir batch attempt cc w).
Proof.
  induction fuel as [|fuel IH]; intros attempt w Hfuel; [lia|].
  destruct (result (svc (requests w) batch)) as [items|st] eqn:Hres.
  - by rewrite (retry_loop_success _ _ _ _ _ _ _ _ Hres).
  - rewrite (retry_loop_error _ _ _ _ _ _ _ _ Hres).
    destruct (Nat.ltb_spec max_retries (S attempt)); [done|].
    apply IH. lia.
Qed.

Lemma batch_loop_total svc out_dir end_ fuel :
  (max_retries < fuel)%nat ->
  forall batches cc w,
    is_Some (batch_loop fuel svc out_dir end_ batches cc w).
Proof.
  intros Hfuel batches.
  induction batches as [|batch rest IH]; intros cc w; simpl; [done|].
  destruct (Qle_bool end_ (now w)); [done|].
  destruct (retry_loop_total svc out_dir batch cc fuel 0 w) as [[cc1 w1] ->];
    [lia|].
  apply IH.
Qed.

(** ** Time stamps of the rows *)

Lemma retry_loop_rows_timestamp svc out_dir batch :
  forall fuel attempt cc w cc' w',
    retry_loop fuel svc out_dir batch attempt cc w = Some (cc', w') ->
    exists evs,
      log w' = log w ++ evs
      /\ Forall (fun r => row_ts r = Some (now w'))
                (data_rows (rows_written evs)).
Proof.
  induction fuel as [|fuel IH]; intros attempt cc w cc' w' Hrun; [done|].
  destruct (result (svc (requests w) batch)) as [items|st] eqn:Hres.
  - destruct (retry_loop_success_log fuel svc out_dir batch attempt cc w items
                Hres) as (w1 & evs & Hrun1 & Hlog & Hs & Hd & _).
    rewrite Hrun1 in Hrun. injection Hrun as <- <-.
    exists (EFetch (now w) attempt batch :: evs). split; [done|].
    change (rows_written (EFetch (now w) attempt batch :: evs))
      with (rows_written evs).
    rewrite Hd. apply Forall_map, Forall_forall. done.
  - rewrite (retry_loop_error _ _ _ _ _ _ _ _ Hres) in Hrun.
    destruct (max_retries <? S attempt)%nat.
    + injection Hrun as <- <-. exists [EFetch (now w) attempt batch].
      split; [done|]. constructor.
    + apply IH in Hrun as (evs & Hlog & Hrows).
      exists ([EFetch (now w) attempt batch;
               ESleep (backoff_wait (S attempt))] ++ evs).
      split; [|exact Hrows].
      rewrite Hlog. simpl. by rewrite <- !app_assoc.
Qed.

(** C5 (as amended): the retry loop of a batch always returns, and the
    rows written for the batch all carry the same time stamp, read once
    when the batch's answer has arrived and its rows are appended; it is
    the clock at the end of the batch. *)
Theorem batch_rows_share_timestamp fuel svc out_dir batch attempt cc w :
  (max_retries - attempt < fuel)%nat ->
  exists cc' w' evs,
    retry_loop fuel svc out_dir batch attempt cc w = Some (cc', w')
    /\ log w' = log w ++ evs
    /\ Forall (fun r => row_ts r = Some (now w'))
              (data_rows (rows_written evs)).
Proof.
  intros Hfuel.
  destruct (retry_loop_total svc out_dir batch cc fuel attempt w Hfuel)
    as [[cc' w'] Hrun].
  destruct (retry_loop_rows_timestamp svc out_dir batch fuel attempt cc w
              cc' w' Hrun) as (evs & Hlog & Hrows).
  by exists cc', w', evs.
Qed.

Lemma batch_rows_share_timestamp_witness :
  exists cc' w' evs,
    retry_loop 7 (ok_service 1) "data" ["vid0"; "vid1"] 0 0 (fresh 0)
    = Some (cc', w')
    /\ log w' = evs
    /\ Forall (fun r => row_ts r = Some (now w'))
              (data_rows (rows_written evs)).
Proof.
  destruct (batch_rows_share_timestamp 7 (ok_service 1) "data"
              ["vid0"; "vid1"] 0 0 (fresh 0))
    as (cc' & w' & evs & Hrun & Hlog & Hrows).
  - unfold max_retries. lia.
  - exists cc', w', evs. repeat split; assumption.
Defined.

(** C5 (as stated) fails: in a run of one round over 51 ids, against a
    service that takes one second per request, the round starts at time 0,
    the row of vid0 (first batch) is stamped 1 and the row of vid50 (second
    batch) is stamped 2. *)
Lemma round_rows_differ_in_timestamp :
  let r := run_polling_loop 5 (ok_service 1) (ids 51) "data" 60 (1 # 360)
                            None (fresh 0) in
  let s := Snapshot (Some 1) None None None (Some "t") None in
  r.1 = (Completed, 2%nat)
  /\ filter is_round (log r.2) = [ERound 0]
  /\ csv_row "vid0" 1 s ∈ rows_written (log r.2)
  /\ csv_row "vid50" 2 s ∈ rows_written (log r.2)
  /\ row_ts (csv_row "vid0" 1 s) <> row_ts (csv_row "vid50" 2 s)
  /\ ~ (1 == 2)%Q.
Proof.
  intros r s.
  assert (r.1 = (Completed, 2%nat)
          /\ filter is_round (log r.2) = [ERound 0]
          /\ bool_decide (csv_row "vid0" 1 s ∈ rows_written (log r.2)) = true
          /\ bool_decide (csv_row "vid50" 2 s ∈ rows_written (log r.2)) = true)
    as (H1 & H2 & H3 & H4) by (vm_compute; repeat split; reflexivity).
  apply bool_decide_eq_true in H3, H4.
  repeat split; try done.
Qed.

(** ** The deadline *)

Lemma deadline_not_reached end_ t : Qle_bool end_ t = false -> (t < end_)%Q.
Proof.
  intros H. apply Qnot_le_lt. intros Hle.
  apply Qle_bool_iff in Hle. congruence.
Qed.

Lemma is_sink_first_attempt end_ evs :
  Forall is_sink evs -> Forall (first_attempt_before end_) evs.
Proof. intros H. eapply Forall_impl; [exact H|]. by intros []. Qed.

Lemma retry_loop_first_attempt end_ svc out_dir batch :
  forall fuel attempt cc w cc' w',
    retry_loop fuel svc out_dir batch attempt cc w = Some (cc', w') ->
    (attempt = 0%nat -> (now w < end_)%Q) ->
    exists evs,
      log w' = log w ++ evs /\ Forall (first_attempt_before end_) evs.
Proof.
  induction fuel as [|fuel IH]; intros attempt cc w cc' w' Hrun Hfirst;
    [done|].
  assert (first_attempt_before end_ (EFetch (now w) attempt batch)) as Hev
    by (destruct attempt; [by apply Hfirst|done]).
  destruct (result (svc (requests w) batch)) as [items|st] eqn:Hres.
  - destruct (retry_loop_success_log fuel svc out_dir batch attempt cc w items
                Hres) as (w1 & evs & Hrun1 & Hlog & Hs & _).
    rewrite Hrun1 in Hrun. injection Hrun as <- <-.
    exists (EFetch (now w) attempt batch :: evs). split; [done|].
    constructor; [done|]. by apply is_sink_first_attempt.
  - rewrite (retry_loop_error _ _ _ _ _ _ _ _ Hres) in Hrun.
    destruct (max_retries <? S attempt)%nat.
    + injection Hrun as <- <-. exists [EFetch (now w) attempt batch].
      split; [done|]. by constructor.
    + apply IH in Hrun as (evs & Hlog & Hevs); [|done].
      exists ([EFetch (now w) attempt batch;
               ESleep (backoff_wait (S attempt))] ++ evs).
      split.
      * rewrite Hlog. simpl. by rewrite <- !app_assoc.
      * simpl. by repeat constructor.
Qed.

Lemma batch_loop_first_attempt end_ svc out_dir fuel :
  forall batches cc w cc' w',
    batch_loop fuel svc out_dir end_ batches cc w = Some (cc', w') ->
    exists evs,
      log w' = log w ++ evs /\ Forall (first_attempt_before end_) evs.
Proof.
  induction batches as [|batch rest IH]; intros cc w cc' w' Hrun;
    simpl in Hrun.
  - injection Hrun as <- <-. exists []. by rewrite app_nil_r.
  - destruct (Qle_bool end_ (now w)) eqn:Hend.
    + injection Hrun as <- <-. exists []. by rewrite app_nil_r.
    + destruct (retry_loop fuel svc out_dir batch 0 cc w)
        as [[cc1 w1]|] eqn:Hretry; [|done].
      apply (retry_loop_first_attempt end_) in Hretry
        as (e1 & Hlog1 & He1); [|by intros _; apply deadline_not_reached].
      apply IH in Hrun as (e2 & Hlog2 & He2).
      exists (e1 ++ e2). rewrite Hlog2, Hlog1, <- app_assoc.
      split; [done|]. by apply Forall_app.
Qed.

Lemma while_loop_first_attempt end_ svc out_dir interval batches :
  forall fuel cc w,
    exists evs,
      log (while_loop fuel svc out_dir interval end_ batches cc w).2
      = log w ++ evs
      /\ Forall (first_attempt_before end_) evs.
Proof.
  induction fuel as [|fuel IH]; intros cc w; simpl.
  - exists []. by rewrite app_nil_r.
  - destruct (Qle_bool end_ (now w)); simpl.
    + exists []. by rewrite app_nil_r.
    + destruct (batch_loop _ svc out_dir end_ batches cc _)
        as [[cc1 w1]|] eqn:Hbatch; simpl.
      * apply batch_loop_first_attempt in Hbatch as (e1 & Hlog1 & He1).
        simpl in Hlog1.
        destruct (interval <? 0); simpl.
        -- exists (ERound (now w) :: e1).
           rewrite Hlog1, <- app_assoc. split; [done|]. by constructor.
        -- destruct (IH cc1 (sleep (inject_Z interval) w1))
             as (e2 & Hlog2 & He2).
           exists (ERound (now w) :: e1 ++ ESleep (inject_Z interval) :: e2).
           rewrite Hlog2. simpl. rewrite Hlog1, <- !app_assoc. simpl.
           split; [done|]. constructor; [done|].
           apply Forall_app. split; [done|]. by constructor.
      * exists [ERound (now w)]. split; [done|]. by repeat constructor.
Qed.

(** C8 (as amended): the deadline is tested before the first request of
    each batch, so no batch is begun at or after it; retries of a batch
    already begun are not tested.  Once the deadline has passed at a batch
    boundary, the batches left in the round are skipped without any effect
    and, after the sleep that ends the round, the loop completes instead of
    starting another round: what was skipped is never requested. *)
Theorem deadline_gates_batches fuel svc out_dir interval end_ batches cc w :
  0 <= interval ->
  (exists evs,
      log (while_loop fuel svc out_dir interval end_ batches cc w).2
      = log w ++ evs
      /\ forall t batch, EFetch t 0 batch ∈ evs -> (t < end_)%Q)
  /\ (forall rest cc2 w2,
        (end_ <= now w2)%Q ->
        batch_loop (S max_retries) svc out_dir end_ rest cc2 w2
        = Some (cc2, w2)
        /\ while_loop (S fuel) svc out_dir interval end_ batches cc2
                      (sleep (inject_Z interval) w2)
           = (Completed, cc2, sleep (inject_Z interval) w2)).
Proof.
  intros Hinterval. split.
  - destruct (while_loop_first_attempt end_ svc out_dir interval batches
                fuel cc w) as (evs & Hlog & Hevs).
    exists evs. split; [done|]. intros t batch Hin.
    rewrite Forall_forall in Hevs. apply (Hevs _ Hin).
  - intros rest cc2 w2 Hend. split.
    + apply Qle_bool_iff in Hend. destruct rest; simpl; [done|].
      by rewrite Hend.
    + assert (Qle_bool end_ (now (sleep (inject_Z interval) w2)) = true)
        as Hafter.
      { apply Qle_bool_iff. simpl.
        apply Qle_trans with (now w2 + 0)%Q.
        - by rewrite Qplus_0_r.
        - apply Qplus_le_r. change 0%Q with (inject_Z 0).
          by rewrite <- Zle_Qle. }
      simpl in *. by rewrite Hafter.
Qed.

Lemma deadline_gates_batches_witness :
  let w2 := World 12 1 ∅ [] in
  batch_loop (S max_retries) (ok_service 1) "data" 10 [["vid0"]; ["vid1"]]
             1 w2 = Some (1%nat, w2)
  /\ while_loop 4 (ok_service 1) "data" 60 10 [["vid0"]; ["vid1"]] 1
                (sleep 60 w2) = (Completed, 1%nat, sleep 60 w2).
Proof.
  intros w2.
  destruct (deadline_gates_batches 3 (ok_service 1) "data" 60 10
              [["vid0"]; ["vid1"]] 0 (fresh 0)) as [_ Hskip]; [lia|].
  apply (Hskip [["vid0"]; ["vid1"]] 1%nat w2). vm_compute. discriminate.
Defined.

(** C8 (as stated) fails: with a deadline 10 seconds after the start and a
    service that answers 503 to every request, the retries of the only
    batch go on after the deadline; the seventh request starts at 132. *)
Lemma retry_starts_after_deadline :
  let r := run_polling_loop 5 (err_service 1 503) ["vid0"] "data" 60 (1 # 360)
                            None (fresh 0) in
  let end_ := (0 + (1 # 360) * 3600)%Q in
  r.1 = (Completed, 0%nat)
  /\ (end_ == 10)%Q
  /\ EFetch 17 3 ["vid0"] ∈ log r.2
  /\ EFetch 132 6 ["vid0"] ∈ log r.2
  /\ (end_ <= 17)%Q
  /\ fetch_count (log r.2) = 7%nat.
Proof.
  intros r end_.
  assert (r.1 = (Completed, 0%nat)
          /\ log r.2
             = [EMkdir "data"; EMkdir "data/vid0"; ERound 0;
                EFetch 0 0 ["vid0"]; ESleep 2; EFetch 3 1 ["vid0"]; ESleep 4;
                EFetch 8 2 ["vid0"]; ESleep 8; EFetch 17 3 ["vid0"];
                ESleep 16; EFetch 34 4 ["vid0"]; ESleep 32;
                EFetch 67 5 ["vid0"]; ESleep 64; EFetch 132 6 ["vid0"];
                ESleep 60]) as [H1 H2]
    by (vm_compute; split; reflexivity).
  rewrite H2. split; [done|]. split; [reflexivity|].
  split; [apply list_elem_of_In; simpl; tauto|].
  split; [apply list_elem_of_In; simpl; tauto|].
  split; [|reflexivity].
  vm_compute. discriminate.
Qed.

(** ** Further properties: the batch split *)

(** X1: the ids are split into exactly ceil(n / 50) batches, none of them
    empty; there is no batch at all exactly when there is no id. *)
Theorem vid_batches_count video_ids :
  length (vid_batches video_ids) = ceil_div (length video_ids) MAX_BATCH
  /\ Forall (fun b => b <> []) (vid_batches video_ids)
  /\ (vid_batches video_ids = [] <-> video_ids = []).
Proof.
  unfold vid_batches.
  split; [apply batches_of_length; unfold MAX_BATCH; lia|].
  split; [apply batches_of_nonempty; unfold MAX_BATCH; lia|].
  split.
  - intros H. rewrite <- (batches_of_concat video_ids MAX_BATCH)
      by (unfold MAX_BATCH; lia). by rewrite H.
  - by intros ->.
Qed.

(** ** Further properties: paths *)

Lemma append_cons c a b : String c a +:+ b = String c (a +:+ b).
Proof. reflexivity. Qed.

Lemma append_assoc a b c : (a +:+ b) +:+ c = a +:+ (b +:+ c).
Proof.
  induction a as [|x a IH]; [done|]. by rewrite !append_cons, IH.
Qed.

Lemma append_empty_r a b : a +:+ b = "" -> b = "".
Proof. destruct a; [done|]. by rewrite append_cons. Qed.

Lemma append_length a b :
  String.length (a +:+ b) = (String.length a + String.length b)%nat.
Proof.
  induction a as [|x a IH]; [done|]. rewrite append_cons. simpl. by rewrite IH.
Qed.

Lemma append_cancel_r s a b : a +:+ s = b +:+ s -> a = b.
Proof.
  revert b. induction a as [|x a IH]; intros [|y b] H; [done| | |].
  - apply (f_equal String.length) in H.
    rewrite !append_length in H. simpl in H. lia.
  - apply (f_equal String.length) in H.
    rewrite !append_length in H. simpl in H. lia.
  - rewrite !append_cons in H. injection H as -> H. f_equal. by apply IH.
Qed.

Lemma endswith_sep_append a b : b <> "" -> endswith_sep (a +:+ b) = endswith_sep b.
Proof.
  intros Hb. induction a as [|x a IH]; [done|].
  rewrite append_cons. simpl.
  destruct (a +:+ b) eqn:E; [|done].
  by apply append_empty_r in E.
Qed.

(** Joining a relative component puts it after a prefix that depends on
    the directory alone. *)
Lemma path_join_relative out_dir :
  exists prefix, forall vid,
    startswith_sep vid = false -> path_join out_dir vid = prefix +:+ vid.
Proof.
  unfold path_join.
  destruct (String.eqb out_dir "" || endswith_sep out_dir) eqn:E.
  - exists out_dir. by intros vid ->.
  - exists (out_dir +:+ "/"). intros vid ->. by rewrite append_assoc.
Qed.

Lemma csv_path_plain out_dir :
  exists prefix, forall vid,
    plain_id vid -> csv_path_of out_dir vid = prefix +:+ vid +:+ "/polls.csv".
Proof.
  destruct (path_join_relative out_dir) as [prefix Hjoin].
  exists prefix. intros vid (Hne & Hstart & Hend).
  unfold csv_path_of. rewrite Hjoin by done. unfold path_join. simpl.
  rewrite endswith_sep_append, Hend by done.
  destruct (String.eqb_spec (prefix +:+ vid) "") as [E|_].
  - by apply append_empty_r in E.
  - simpl. by rewrite append_assoc.
Qed.

(** X2: for two video ids that are not empty and neither begin nor end
    with '/', the sink computes the same CSV path string only if they are
    the same id.  (The statement is about the path strings that
    [os.path.join] returns, not about which strings name one file.) *)
Theorem csv_path_injective out_dir v1 v2 :
  plain_id v1 -> plain_id v2 ->
  csv_path_of out_dir v1 = csv_path_of out_dir v2 -> v1 = v2.
Proof.
  intros H1 H2. destruct (csv_path_plain out_dir) as [prefix Hpath].
  rewrite !Hpath by done. intros H.
  apply (inj (String.append prefix)) in H.
  by apply append_cancel_r in H.
Qed.

Lemma csv_path_injective_witness :
  csv_path_of "data" "vid0" = csv_path_of "data" "vid0" /\ "vid0" = "vid0".
Proof.
  split; [reflexivity|].
  apply (csv_path_injective "data" "vid0" "vid0"); try reflexivity.
  - repeat split; discriminate.
  - repeat split; discriminate.
Defined.

(** X3: a video id that begins with '/' replaces the output directory in
    [os.path.join]: the CSV path computed for it is
    [join(vid, "polls.csv")], the same for every [out_dir]. *)
Theorem absolute_id_escapes_out_dir out_dir out_dir' vid :
  startswith_sep vid = true ->
  csv_path_of out_dir vid = csv_path_of out_dir' vid
  /\ csv_path_of out_dir vid = path_join vid "polls.csv".
Proof.
  intros H.
  assert (forall d, path_join d vid = vid) as Hjoin
    by (intros d; unfold path_join; by rewrite H).
  unfold csv_path_of. by rewrite !Hjoin.
Qed.

Lemma absolute_id_escapes_out_dir_witness :
  csv_path_of "data" "/tmp/x" = "/tmp/x/polls.csv".
Proof.
  destruct (absolute_id_escapes_out_dir "data" "" "/tmp/x") as [_ H].
  - reflexivity.
  - rewrite H. reflexivity.
Defined.

(** ** Further properties: the decoded response *)

Lemma dict_get_set_eq {V} k (v : V) d : dict_get k (dict_set k v d) = Some v.
Proof.
  induction d as [|[k' v'] d IH]; simpl.
  - by rewrite String.eqb_refl.
  - destruct (String.eqb_spec k' k) as [->|Hne]; simpl.
    + by rewrite String.eqb_refl.
    + destruct (String.eqb_spec k' k); [done|]. exact IH.
Qed.

Lemma dict_get_set_ne {V} k k' (v : V) d :
  k <> k' -> dict_get k' (dict_set k v d) = dict_get k' d.
Proof.
  intros Hne. induction d as [|[k0 v0] d IH]; simpl.
  - by destruct (String.eqb_spec k k').
  - destruct (String.eqb_spec k0 k) as [->|Hne0]; simpl.
    + by destruct (String.eqb_spec k k').
    + destruct (String.eqb_spec k0 k'); [done|]. exact IH.
Qed.

Lemma decode_from_last items vid : forall d,
  dict_get vid
    (foldl (fun out it => dict_set (it_id it) (snapshot_of it) out) d items)
  = match last (filter (fun it => it_id it = vid) items) with
    | Some it => Some (snapshot_of it)
    | None => dict_get vid d
    end.
Proof.
  induction items as [|it items IH]; intros d; simpl; [done|].
  rewrite IH, filter_cons. case_decide as Hid.
  - rewrite last_cons. destruct (last (filter _ items)); [done|].
    rewrite <- Hid. apply dict_get_set_eq.
  - destruct (last (filter _ items)); [done|].
    by apply dict_get_set_ne.
Qed.

(** X4: when the response lists an id several times, the record kept for
    it is the one decoded from its last item; an id the response does not
    list has no record. *)
Theorem decode_items_last_wins items vid :
  dict_get vid (decode_items items)
  = snapshot_of <$> last (filter (fun it => it_id it = vid) items).
Proof.
  unfold decode_items. rewrite decode_from_last.
  by destruct (last (filter _ items)).
Qed.

(** ** Further properties: what a run does to the stored files *)

(** Any relation between stores that is reflexive, transitive and holds
    across one pass of the sink's loop body holds across a whole run. *)
Section StoreLifting.
Variable out_dir : string.
Variable R : gmap string (list row) -> gmap string (list row) -> Prop.
Hypothesis R_refl : forall fs, R fs fs.
Hypothesis R_trans : forall fs1 fs2 fs3, R fs1 fs2 -> R fs2 fs3 -> R fs1 fs3.
Hypothesis R_step : forall ts w entry,
  R (files w) (files (write_snapshot out_dir ts w entry)).

Lemma lift_append_rows snapshots w :
  R (files w) (files (append_rows_to_csv out_dir snapshots w)).
Proof.
  unfold append_rows_to_csv. generalize (now w) as ts. intros ts. revert w.
  induction snapshots as [|entry snapshots IH]; intros w; simpl; [done|].
  eapply R_trans; [apply R_step|apply IH].
Qed.

Lemma lift_retry_loop svc batch : forall fuel attempt cc w cc' w',
  retry_loop fuel svc out_dir batch attempt cc w = Some (cc', w') ->
  R (files w) (files w').
Proof.
  induction fuel as [|fuel IH]; intros attempt cc w cc' w' Hrun; [done|].
  destruct (result (svc (requests w) batch)) as [items|st] eqn:Hres.
  - rewrite (retry_loop_success _ _ _ _ _ _ _ _ Hres) in Hrun.
    injection Hrun as <- <-.
    apply (lift_append_rows _ (after_request svc batch attempt w)).
  - rewrite (retry_loop_error _ _ _ _ _ _ _ _ Hres) in Hrun.
    destruct (max_retries <? S attempt)%nat.
    + injection Hrun as <- <-. apply R_refl.
    + apply IH in Hrun. exact Hrun.
Qed.

Lemma lift_batch_loop svc end_ fuel : forall batches cc w cc' w',
  batch_loop fuel svc out_dir end_ batches cc w = Some (cc', w') ->
  R (files w) (files w').
Proof.
  induction batches as [|batch rest IH]; intros cc w cc' w' Hrun;
    simpl in Hrun.
  - injection Hrun as <- <-. apply R_refl.
  - destruct (Qle_bool end_ (now w)).
    + injection Hrun as <- <-. apply R_refl.
    + destruct (retry_loop fuel svc out_dir batch 0 cc w)
        as [[cc1 w1]|] eqn:Hretry; [|done].
      eapply R_trans; [eapply lift_retry_loop, Hretry|eapply IH, Hrun].
Qed.

Lemma lift_while_loop svc interval end_ batches : forall fuel cc w,
  R (files w) (files (while_loop fuel svc out_dir interval end_ batches cc w).2).
Proof.
  induction fuel as [|fuel IH]; intros cc w; simpl; [apply R_refl|].
  destruct (Qle_bool end_ (now w)); simpl; [apply R_refl|].
  destruct (batch_loop _ svc out_dir end_ batches cc _)
    as [[cc1 w1]|] eqn:Hbatch; simpl; [|apply R_refl].
  apply lift_batch_loop in Hbatch. simpl in Hbatch.
  destruct (interval <? 0); simpl; [done|].
  eapply R_trans; [exact Hbatch|].
  apply (IH cc1 (sleep (inject_Z interval) w1)).
Qed.

Lemma lift_run fuel svc video_ids interval t0_hours max_calls w :
  R (files w)
    (files (run_polling_loop fuel svc video_ids out_dir interval t0_hours
                             max_calls w).2).
Proof.
  unfold run_polling_loop.
  destruct (ensure_out_dirs_frame out_dir video_ids w) as (_ & _ & Hf & _).
  rewrite <- Hf.
  destruct (estimate_calls _ _ _) as [planned|]; simpl; [|apply R_refl].
  destruct (match max_calls with Some m => m <? planned | None => false end);
    simpl; [apply R_refl|].
  apply lift_while_loop.
Qed.
End StoreLifting.

Lemma store_extends_refl fs : store_extends fs fs.
Proof. intros path c Hc. exists []. by rewrite app_nil_r. Qed.

Lemma store_extends_trans fs1 fs2 fs3 :
  store_extends fs1 fs2 -> store_extends fs2 fs3 -> store_extends fs1 fs3.
Proof.
  intros H12 H23 path c Hc.
  destruct (H12 path c Hc) as [c1 Hc1]. destruct (H23 _ _ Hc1) as [c2 Hc2].
  exists (c1 ++ c2). by rewrite app_assoc.
Qed.

Lemma store_extends_step out_dir ts w entry :
  store_extends (files w) (files (write_snapshot out_dir ts w entry)).
Proof.
  intros path c Hc. rewrite write_snapshot_files.
  destruct (decide (csv_path_of out_dir entry.1 = path)) as [<-|Hne].
  - rewrite lookup_insert_eq. unfold file_base. rewrite Hc. by eexists.
  - rewrite lookup_insert_ne by done. exists []. by rewrite app_nil_r.
Qed.

(** X5: a run only appends.  Whatever the service answers and however
    the run ends, every file that existed before it still exists after
    it and holds what it held, followed by the rows the run added. *)
Theorem run_is_append_only fuel svc video_ids out_dir interval t0_hours
    max_calls w :
  store_extends (files w)
    (files (run_polling_loop fuel svc video_ids out_dir interval t0_hours
                             max_calls w).2).
Proof.
  apply lift_run.
  - apply store_extends_refl.
  - apply store_extends_trans.
  - apply store_extends_step.
Qed.

Lemma data_row_not_header out_dir path r :
  data_row_of out_dir path r -> r <> csv_headers.
Proof. intros (_ & vid & ts & _ & Hts & _) ->. discriminate. Qed.

Lemma wf_store_step out_dir ts w entry :
  wf_store out_dir (files w) ->
  wf_store out_dir (files (write_snapshot out_dir ts w entry)).
Proof.
  intros Hwf path c. rewrite write_snapshot_files.
  destruct (decide (csv_path_of out_dir entry.1 = path)) as [<-|Hne].
  - rewrite lookup_insert_eq. intros [= <-].
    assert (data_row_of out_dir (csv_path_of out_dir entry.1)
              (csv_row entry.1 ts entry.2)) as Hrow.
    { split; [done|]. by exists entry.1, ts. }
    unfold file_base.
    destruct (files w !! csv_path_of out_dir entry.1) as [c|] eqn:Hc.
    + destruct (Hwf _ _ Hc) as (rows & -> & Hne & Hrows).
      exists (rows ++ [csv_row entry.1 ts entry.2]). split; [done|].
      split; [by destruct rows|].
      apply Forall_app. split; [done|]. by constructor.
    + exists [csv_row entry.1 ts entry.2]. split; [done|].
      split; [done|]. by constructor.
  - rewrite lookup_insert_ne by done. apply Hwf.
Qed.

Lemma wf_file_one_header out_dir path c :
  wf_file out_dir path c ->
  head c = Some csv_headers /\ header_rows c = [csv_headers].
Proof.
  intros (rows & -> & _ & Hrows). split; [done|].
  rewrite header_rows_header. f_equal.
  unfold header_rows. induction Hrows as [|r rows Hr _ IH]; [done|].
  rewrite filter_cons_False; [exact IH|].
  by apply data_row_not_header in Hr.
Qed.

(** X6: a run keeps every file well formed.  If each stored file is the
    header followed by one or more seven-field data rows whose video id
    maps to that very file, the same holds after the run, for the files it
    extended and for those it created; such a file holds the header once,
    as its first row, and never the header alone. *)
Theorem run_keeps_files_well_formed fuel svc video_ids out_dir interval
    t0_hours max_calls w :
  wf_store out_dir (files w) ->
  let w' := (run_polling_loop fuel svc video_ids out_dir interval t0_hours
                              max_calls w).2 in
  wf_store out_dir (files w')
  /\ forall path c, files w' !! path = Some c ->
       head c = Some csv_headers /\ header_rows c = [csv_headers].
Proof.
  intros Hwf w'.
  assert (wf_store out_dir (files w')) as Hwf'.
  { revert Hwf. subst w'.
    apply (lift_run out_dir
             (fun fs fs' => wf_store out_dir fs -> wf_store out_dir fs')).
    - auto.
    - auto.
    - intros ts w0 entry. apply wf_store_step. }
  split; [done|]. intros path c Hc.
  eapply wf_file_one_header, Hwf', Hc.
Qed.

Lemma run_keeps_files_well_formed_witness :
  let w' := (run_polling_loop 5 (ok_service 1) ["vid0"; "vid1"] "data" 2
                              (1 # 1200) None (fresh 0)).2 in
  wf_store "data" (files w').
Proof.
  intros w'.
  apply (run_keeps_files_well_formed 5 (ok_service 1) ["vid0"; "vid1"] "data"
           2 (1 # 1200) None (fresh 0)).
  intros path c Hc. simpl in Hc. by rewrite lookup_empty in Hc.
Defined.

(** ** Further properties: the retry loop *)

(** A batch whose first [k] requests raise [HttpError] and whose next
    request is answered. *)
Lemma retry_loop_recovers svc out_dir batch cc items :
  forall k attempt fuel w,
    (forall i, (i < k)%nat ->
       exists st, result (svc (requests w + i)%nat batch) = HttpError st) ->
    result (svc (requests w + k)%nat batch) = Items items ->
    (attempt + k <= max_retries)%nat -> (k < fuel)%nat ->
    exists w' evs,
      retry_loop fuel svc out_dir batch attempt cc w = Some (S cc, w')
      /\ log w' = log w ++ evs
      /\ requests w' = (requests w + S k)%nat
      /\ fetch_count evs = S k
      /\ sleeps evs = map backoff_wait (seq (S attempt) k)
      /\ data_rows (rows_written evs)
         = map (fun entry => csv_row entry.1 (now w') entry.2)
               (decode_items items).
Proof.
  induction k as [|k IH]; intros attempt fuel w Hfail Hok Hk Hfuel;
    (destruct fuel as [|fuel]; [lia|]).
  - rewrite Nat.add_0_r in Hok.
    destruct (retry_loop_success_log fuel svc out_dir batch attempt cc w items
                Hok) as (w' & evs & Hrun & Hlog & Hs & Hd & _ & Hr).
    exists w', (EFetch (now w) attempt batch :: evs).
    repeat split; try done.
    + lia.
    + change (fetch_count (EFetch (now w) attempt batch :: evs))
        with (S (fetch_count evs)). by rewrite is_sink_no_fetch.
    + change (sleeps (EFetch (now w) attempt batch :: evs))
        with (sleeps evs). by rewrite is_sink_no_sleep.
  - destruct (Hfail 0%nat) as [st Hst]; [lia|]. rewrite Nat.add_0_r in Hst.
    rewrite (retry_loop_error _ _ _ _ _ _ _ _ Hst).
    destruct (Nat.ltb_spec max_retries (S attempt)) as [?|_]; [lia|].
    destruct (IH (S attempt) fuel
                 (sleep (backoff_wait (S attempt))
                        (after_request svc batch attempt w)))
      as (w' & evs & Hrun & Hlog & Hr & Hfc & Hsl & Hd).
    + intros i Hi. simpl.
      replace (S (requests w + i)) with (requests w + S i)%nat by lia.
      apply Hfail. lia.
    + simpl. by replace (S (requests w + k)) with (requests w + S k)%nat by lia.
    + lia.
    + lia.
    + exists w', ([EFetch (now w) attempt batch;
                   ESleep (backoff_wait (S attempt))] ++ evs).
      rewrite Hrun, Hlog, Hr. simpl. rewrite <- !app_assoc. simpl.
      repeat split; try done; try lia.
      * change (fetch_count (EFetch (now w) attempt batch
                             :: ESleep (backoff_wait (S attempt)) :: evs))
          with (S (fetch_count evs)). lia.
      * by rewrite Hsl.
Qed.

(** X7: when the first k requests for a batch raise [HttpError], with
    k at most [max_retries], and the next one is answered, the batch costs
    k + 1 requests, the loop has slept [backoff_initial * 2^(i-1)] seconds
    after the i-th failure, and the answer is saved once and counted as
    one call. *)
Theorem retry_recovers_after_failures fuel svc out_dir batch cc w k items :
  (k <= max_retries)%nat ->
  (max_retries < fuel)%nat ->
  (forall i, (i < k)%nat ->
     exists st, result (svc (requests w + i)%nat batch) = HttpError st) ->
  result (svc (requests w + k)%nat batch) = Items items ->
  exists w' evs,
    retry_loop fuel svc out_dir batch 0 cc w = Some (S cc, w')
    /\ log w' = log w ++ evs
    /\ requests w' = (requests w + S k)%nat
    /\ fetch_count evs = S k
    /\ sleeps evs = map backoff_wait (seq 1 k)
    /\ data_rows (rows_written evs)
       = map (fun entry => csv_row entry.1 (now w') entry.2)
             (decode_items items).
Proof.
  intros Hk Hfuel Hfail Hok.
  apply (retry_loop_recovers svc out_dir batch cc items k 0%nat fuel w);
    try done; lia.
Qed.

Lemma retry_recovers_after_failures_witness :
  exists w' evs,
    retry_loop 7 (flaky_service 2 1 503) "data" ["vid0"] 0 0 (fresh 0)
    = Some (1%nat, w')
    /\ log w' = evs
    /\ requests w' = 3%nat
    /\ sleeps evs = [2; 4]%Q.
Proof.
  destruct (retry_recovers_after_failures 7 (flaky_service 2 1 503) "data"
              ["vid0"] 0 (fresh 0) 2
              [Item "vid0" (Some 1) None None None (Some "t") None])
    as (w' & evs & Hrun & Hlog & Hr & _ & Hsl & _).
  - unfold max_retries. lia.
  - unfold max_retries. lia.
  - intros i Hi. exists (Some 503).
    destruct i as [|[|i]]; [reflexivity|reflexivity|lia].
  - reflexivity.
  - exists w', evs. repeat split; assumption.
Defined.

(** X8: an answer without items is still a successful call: the call is
    counted, the retry loop ends after this one request, and nothing is
    written, not even an empty file. *)
Theorem empty_answer_counts_as_call fuel svc out_dir batch attempt cc w :
  result (svc (requests w) batch) = Items [] ->
  exists w',
    retry_loop (S fuel) svc out_dir batch attempt cc w = Some (S cc, w')
    /\ files w' = files w
    /\ requests w' = S (requests w)
    /\ log w' = log w ++ [EFetch (now w) attempt batch].
Proof.
  intros Hres. rewrite (retry_loop_success _ _ _ _ _ _ _ _ Hres).
  by eexists.
Qed.

Lemma empty_answer_counts_as_call_witness :
  exists w',
    retry_loop 7 (ok_service 1) "data" [] 0 0 (fresh 0) = Some (1%nat, w')
    /\ files w' = ∅.
Proof.
  destruct (empty_answer_counts_as_call 6 (ok_service 1) "data" [] 0 0
              (fresh 0)) as (w' & Hrun & Hf & _); [reflexivity|].
  exists w'. split; assumption.
Defined.

(** ** Further properties: requests, rounds and the clock *)

Lemma round_count_app l1 l2 :
  round_count (l1 ++ l2) = (round_count l1 + round_count l2)%nat.
Proof. unfold round_count. by rewrite filter_app, length_app. Qed.

Lemma is_sink_no_round evs : Forall is_sink evs -> round_count evs = 0%nat.
Proof.
  induction 1 as [|e evs He _ IH]; [done|].
  destruct e; try done; apply IH.
Qed.

Lemma backoff_wait_nonneg attempt : (0 <= backoff_wait attempt)%Q.
Proof.
  unfold backoff_wait, backoff_initial.
  assert (0 <= inject_Z (2 ^ Z.of_nat (attempt - 1)))%Q.
  { change 0%Q with (inject_Z 0). rewrite <- Zle_Qle. lia. }
  lra.
Qed.

(** One batch: between 1 and [max_retries + 1] requests, at most one
    call counted, no round started, and the clock does not go back. *)
Lemma retry_loop_accounting svc out_dir batch :
  forall fuel attempt cc w cc' w',
    retry_loop fuel svc out_dir batch attempt cc w = Some (cc', w') ->
    (attempt <= max_retries)%nat ->
    exists evs,
      log w' = log w ++ evs
      /\ round_count evs = 0%nat
      /\ (requests w < requests w' <= requests w + (S max_retries - attempt))%nat
      /\ (cc <= cc' <= S cc)%nat
      /\ (nonneg_service svc -> (now w <= now w')%Q).
Proof.
  induction fuel as [|fuel IH]; intros attempt cc w cc' w' Hrun Hattempt;
    [done|].
  destruct (result (svc (requests w) batch)) as [items|st] eqn:Hres.
  - destruct (retry_loop_success_log fuel svc out_dir batch attempt cc w items
                Hres) as (w1 & evs & Hrun1 & Hlog & Hs & _ & Hn & Hr).
    rewrite Hrun1 in Hrun. injection Hrun as <- <-.
    exists (EFetch (now w) attempt batch :: evs).
    split; [done|].
    split; [by apply (is_sink_no_round evs)|].
    split; [lia|]. split; [lia|].
    intros Hsvc. rewrite Hn. specialize (Hsvc (requests w) batch). lra.
  - rewrite (retry_loop_error _ _ _ _ _ _ _ _ Hres) in Hrun.
    destruct (Nat.ltb_spec max_retries (S attempt)) as [Hmax|Hmax].
    + injection Hrun as <- <-. exists [EFetch (now w) attempt batch].
      split; [done|]. split; [done|]. simpl.
      split; [lia|]. split; [lia|].
      intros Hsvc. specialize (Hsvc (requests w) batch). lra.
    + apply IH in Hrun as (evs & Hlog & Hrc & Hr & Hcc & Hnow); [|lia].
      exists ([EFetch (now w) attempt batch;
               ESleep (backoff_wait (S attempt))] ++ evs).
      simpl in *. split; [by rewrite Hlog, <- !app_assoc|].
      split; [done|]. split; [lia|]. split; [lia|].
      intros Hsvc. specialize (Hnow Hsvc).
      specialize (Hsvc (requests w) batch).
      pose proof (backoff_wait_nonneg (S attempt)). lra.
Qed.

Lemma batch_loop_accounting svc out_dir end_ fuel :
  forall batches cc w cc' w',
    batch_loop fuel svc out_dir end_ batches cc w = Some (cc', w') ->
    exists evs,
      log w' = log w ++ evs
      /\ round_count evs = 0%nat
      /\ (requests w <= requests w'
          <= requests w + S max_retries * length batches)%nat
      /\ (cc <= cc' <= cc + length batches)%nat
      /\ (nonneg_service svc -> (now w <= now w')%Q).
Proof.
  induction batches as [|batch rest IH]; intros cc w cc' w' Hrun;
    simpl in Hrun.
  - injection Hrun as <- <-. exists []. rewrite app_nil_r.
    repeat split; try done; try lia. intros _. lra.
  - destruct (Qle_bool end_ (now w)).
    + injection Hrun as <- <-. exists []. rewrite app_nil_r.
      repeat split; try done; try lia. intros _. lra.
    + destruct (retry_loop fuel svc out_dir batch 0 cc w)
        as [[cc1 w1]|] eqn:Hretry; [|done].
      apply retry_loop_accounting in Hretry
        as (e1 & Hlog1 & Hrc1 & Hr1 & Hcc1 & Hnow1); [|lia].
      apply IH in Hrun as (e2 & Hlog2 & Hrc2 & Hr2 & Hcc2 & Hnow2).
      exists (e1 ++ e2). rewrite Hlog2, Hlog1, <- app_assoc.
      rewrite round_count_app, Hrc1, Hrc2.
      unfold max_retries in *. simpl.
      repeat split; try done; try lia.
      intros Hsvc. specialize (Hnow1 Hsvc). specialize (Hnow2 Hsvc). lra.
Qed.

Lemma inject_nat_succ (n : nat) :
  (inject_Z (Z.of_nat (S n)) == inject_Z (Z.of_nat n) + 1)%Q.
Proof.
  rewrite Nat2Z.inj_succ. unfold Z.succ. by rewrite inject_Z_plus.
Qed.

(** The whole loop, with [n] the number of rounds it started.  The
    requests and calls are bounded per round; the loop can only run out
    of fuel after [fuel] rounds, only crash on a negative interval, and
    only complete once the deadline has passed.  Every round but the
    last one has been followed by a sleep of [interval], which bounds [n]
    by the time that was left. *)
Lemma while_loop_accounting svc out_dir interval end_ batches :
  forall fuel cc w,
    let r := while_loop fuel svc out_dir interval end_ batches cc w in
    exists evs,
      log r.2 = log w ++ evs
      /\ (requests w <= requests r.2
          <= requests w
             + round_count evs * (S max_retries * length batches))%nat
      /\ (cc <= r.1.2 <= cc + round_count evs * length batches)%nat
      /\ (r.1.1 = OutOfFuel -> round_count evs = fuel)
      /\ (r.1.1 = Crashed -> interval < 0)
      /\ (r.1.1 = Completed -> (end_ <= now r.2)%Q)
      /\ r.1.1 <> Aborted
      /\ (nonneg_service svc ->
          (now w <= now r.2)%Q
          /\ (round_count evs = 0%nat
              \/ (inject_Z (Z.of_nat (round_count evs)) * inject_Z interval
                  < end_ - now w + inject_Z interval)%Q)).
Proof.
  induction fuel as [|fuel IH]; intros cc w; simpl.
  { exists []. rewrite app_nil_r. simpl.
    repeat split; try done; try lia. - lra. - by left. }
  destruct (Qle_bool end_ (now w)) eqn:Hend; simpl.
  { exists []. rewrite app_nil_r. simpl.
    repeat split; try done; try lia.
    - intros _. by apply Qle_bool_iff.
    - lra.
    - by left. }
  apply deadline_not_reached in Hend.
  destruct (batch_loop_total svc out_dir end_ (S max_retries)
              (Nat.lt_succ_diag_r _) batches cc
              (log_event (ERound (now w)) w)) as [[cc1 w1] Hbatch].
  rewrite Hbatch.
  apply batch_loop_accounting in Hbatch
    as (e1 & Hlog1 & Hrc1 & Hr1 & Hcc1 & Hnow1).
  simpl in Hlog1, Hr1, Hnow1.
  destruct (Z.ltb_spec interval 0) as [Hneg|Hpos]; simpl.
  { exists (ERound (now w) :: e1). rewrite Hlog1, <- app_assoc.
    change (round_count (ERound (now w) :: e1)) with (S (round_count e1)).
    rewrite Hrc1. repeat split; try done; try lia.
    - by apply Hnow1.
    - right. change (inject_Z (Z.of_nat 1)) with 1%Q. lra. }
  specialize (IH cc1 (sleep (inject_Z interval) w1)).
  destruct (while_loop fuel svc out_dir interval end_ batches cc1
              (sleep (inject_Z interval) w1)) as [[o cc2] w2] eqn:Hrest.
  simpl in IH. destruct IH
    as (e2 & Hlog2 & Hr2 & Hcc2 & Hfuel & Hcrash & Hdone & Habort & Hnow2).
  simpl.
  exists (ERound (now w) :: e1 ++ ESleep (inject_Z interval) :: e2).
  assert (round_count (ERound (now w) :: e1 ++ ESleep (inject_Z interval) :: e2)
          = S (round_count e2)) as Hrc.
  { change (round_count (ERound (now w)
                         :: e1 ++ ESleep (inject_Z interval) :: e2))
      with (S (round_count (e1 ++ ESleep (inject_Z interval) :: e2))).
    rewrite round_count_app, Hrc1.
    by change (round_count (ESleep (inject_Z interval) :: e2))
      with (round_count e2). }
  rewrite Hrc.
  split; [rewrite Hlog2; simpl; by rewrite Hlog1, <- !app_assoc|].
  split; [lia|]. split; [lia|].
  split; [intros Ho; by rewrite (Hfuel Ho)|].
  split; [done|]. split; [done|]. split; [done|].
  intros Hsvc. specialize (Hnow1 Hsvc).
  destruct (Hnow2 Hsvc) as [Hmono Hrounds]. simpl in Hmono, Hrounds.
  assert (0 <= inject_Z interval)%Q as Hi
    by (change 0%Q with (inject_Z 0); by rewrite <- Zle_Qle).
  split; [lra|]. right.
  rewrite inject_nat_succ.
  destruct Hrounds as [->|Hrounds].
  - change (inject_Z (Z.of_nat 0)) with 0%Q. lra.
  - lra.
Qed.

Lemma inject_Z_pos (z : Z) : 0 < z -> (0 < inject_Z z)%Q.
Proof. intros H. change 0%Q with (inject_Z 0). by rewrite <- Zlt_Qlt. Qed.

Lemma ensure_out_dirs_log out_dir video_ids w :
  exists evs,
    log (ensure_out_dirs out_dir video_ids w) = log w ++ evs
    /\ Forall is_sink evs.
Proof.
  unfold ensure_out_dirs.
  assert (forall l w0, exists evs,
            log (foldl (fun w vid => makedirs (path_join out_dir vid) w) w0 l)
            = log w0 ++ evs /\ Forall is_sink evs) as Hfold.
  { induction l as [|vid l IH]; intros w0; simpl.
    - exists []. by rewrite app_nil_r.
    - destruct (IH (makedirs (path_join out_dir vid) w0)) as (evs & -> & Hs).
      exists (EMkdir (path_join out_dir vid) :: evs). simpl.
      rewrite <- app_assoc. split; [done|]. by constructor. }
  destruct (Hfold video_ids (makedirs out_dir w)) as (evs & -> & Hs).
  exists (EMkdir out_dir :: evs). simpl. rewrite <- app_assoc.
  split; [done|]. by constructor.
Qed.

(** The run, with [n] the number of rounds it started. *)
Lemma run_accounting fuel svc video_ids out_dir interval t0_hours max_calls w
    planned :
  estimate_calls (length video_ids) interval t0_hours = Some planned ->
  let r := run_polling_loop fuel svc video_ids out_dir interval t0_hours
                            max_calls w in
  let batches := length (vid_batches video_ids) in
  exists evs,
    log r.2 = log w ++ evs
    /\ (requests w <= requests r.2
        <= requests w + round_count evs * (S max_retries * batches))%nat
    /\ (r.1.2 <= round_count evs * batches)%nat
    /\ (r.1.1 = OutOfFuel -> round_count evs = fuel)
    /\ (r.1.1 = Crashed -> interval < 0)
    /\ (r.1.1 = Completed -> (now w + t0_hours * 3600 <= now r.2)%Q)
    /\ (nonneg_service svc -> 0 < interval ->
        Z.of_nat (round_count evs) <= Z.max 0 planned).
Proof.
  intros Hest r batches. subst r batches. unfold run_polling_loop.
  rewrite Hest.
  destruct (ensure_out_dirs_log out_dir video_ids w) as (e0 & Hlog0 & Hs0).
  destruct (ensure_out_dirs_frame out_dir video_ids w)
    as (Hn0 & Hr0 & _).
  pose proof (is_sink_no_round e0 Hs0) as Hrc0.
  destruct (match max_calls with Some m => m <? planned | None => false end).
  { exists e0. simpl. rewrite Hrc0, Hr0.
    repeat split; try done; lia. }
  set (w0 := ensure_out_dirs out_dir video_ids w) in *.
  destruct (while_loop_accounting svc out_dir interval
              (now w0 + t0_hours * 3600)%Q (vid_batches video_ids) fuel 0 w0)
    as (evs & Hlog & Hr & Hcc & Hfuel & Hcrash & Hdone & _ & Hnow).
  exists (e0 ++ evs). rewrite round_count_app, Hrc0, Nat.add_0_l.
  rewrite Hr0 in Hr. cbn [fst snd] in *.
  split; [by rewrite Hlog, Hlog0, app_assoc|].
  split; [lia|]. split; [lia|]. split; [done|]. split; [done|].
  split; [by rewrite <- Hn0|].
  intros Hsvc Hi. destruct (Hnow Hsvc) as [_ [->|Hrounds]]; [lia|].
  pose proof (inject_Z_pos interval Hi) as Hq.
  unfold estimate_calls in Hest.
  destruct (interval =? 0); [done|]. injection Hest as <-.
  set (n := round_count evs) in *.
  assert (inject_Z (Z.of_nat n - 1) * inject_Z interval < t0_hours * 3600)%Q
    as Hlt.
  { unfold Zminus. rewrite inject_Z_plus.
    change (inject_Z (- (1))) with (- (1))%Q. lra. }
  apply Qlt_shift_div_l in Hlt; [|done].
  pose proof (Qle_ceiling (t0_hours * 3600 / inject_Z interval)) as Hup.
  assert (inject_Z (Z.of_nat n - 1)
          < inject_Z (Qceiling (t0_hours * 3600 / inject_Z interval)))%Q
    as Hz by lra.
  rewrite <- Zlt_Qlt in Hz. lia.
Qed.

(** X10: with a positive interval and a service whose requests take no
    negative time, a run never starts more rounds than the planned number
    of calls, counts at most one call per batch and round, and sends at
    most [max_retries + 1] requests per batch and round.  So the quota
    it can use is bounded by planned rounds x batches, the product that
    [estimate_calls] leaves out when there are more than 50 ids. *)
Theorem run_call_budget fuel svc video_ids out_dir interval t0_hours max_calls
    w planned :
  nonneg_service svc -> 0 < interval ->
  estimate_calls (length video_ids) interval t0_hours = Some planned ->
  let r := run_polling_loop fuel svc video_ids out_dir interval t0_hours
                            max_calls w in
  let batches := Z.of_nat (ceil_div (length video_ids) MAX_BATCH) in
  exists evs,
    log r.2 = log w ++ evs
    /\ Z.of_nat (round_count evs) <= Z.max 0 planned
    /\ Z.of_nat r.1.2 <= Z.max 0 planned * batches
    /\ Z.of_nat (requests r.2 - requests w)
       <= Z.max 0 planned * batches * Z.of_nat (S max_retries).
Proof.
  intros Hsvc Hi Hest r batches.
  destruct (run_accounting fuel svc video_ids out_dir interval t0_hours
              max_calls w planned Hest)
    as (evs & Hlog & Hr & Hcc & _ & _ & _ & Hrounds).
  fold r in Hlog, Hr, Hcc. specialize (Hrounds Hsvc Hi).
  assert (length (vid_batches video_ids)
          = ceil_div (length video_ids) MAX_BATCH) as Hlen
    by (apply batches_of_length; unfold MAX_BATCH; lia).
  rewrite Hlen in Hr, Hcc. subst batches.
  exists evs. split; [done|]. split; [done|].
  unfold max_retries in *. split; nia.
Qed.

Lemma run_call_budget_witness :
  let r := run_polling_loop 5 (ok_service 1) ["vid0"] "data" 2 (1 # 1200)
                            None (fresh 0) in
  Z.of_nat r.1.2 <= 2.
Proof.
  intros r.
  destruct (run_call_budget 5 (ok_service 1) ["vid0"] "data" 2 (1 # 1200)
              None (fresh 0) 2) as (evs & _ & _ & Hcalls & _).
  - intros n batch. simpl. lra.
  - lia.
  - reflexivity.
  - exact Hcalls.
Defined.

(** X11: with a positive interval and such a service, any run given more
    fuel than the planned number of calls ends, either stopped by the
    quota safeguard or with the polling window complete, and in the second
    case the clock has reached the deadline. *)
Theorem run_terminates fuel svc video_ids out_dir interval t0_hours max_calls
    w planned :
  nonneg_service svc -> 0 < interval ->
  estimate_calls (length video_ids) interval t0_hours = Some planned ->
  Z.max 0 planned < Z.of_nat fuel ->
  let r := run_polling_loop fuel svc video_ids out_dir interval t0_hours
                            max_calls w in
  r.1.1 = Aborted
  \/ (r.1.1 = Completed /\ (now w + t0_hours * 3600 <= now r.2)%Q).
Proof.
  intros Hsvc Hi Hest Hfuel r.
  destruct (run_accounting fuel svc video_ids out_dir interval t0_hours
              max_calls w planned Hest)
    as (evs & _ & _ & _ & Hout & Hcrash & Hdone & Hrounds).
  fold r in Hout, Hcrash, Hdone. specialize (Hrounds Hsvc Hi).
  destruct (r.1.1) eqn:Ho.
  - by left.
  - right. split; [done|]. by apply Hdone.
  - specialize (Hcrash eq_refl). lia.
  - specialize (Hout eq_refl). lia.
Qed.

Lemma run_terminates_witness :
  let r := run_polling_loop 5 (ok_service 1) ["vid0"] "data" 2 (1 # 1200)
                            None (fresh 0) in
  r.1.1 = Aborted \/ (r.1.1 = Completed /\ (0 + (1 # 1200) * 3600 <= now r.2)%Q).
Proof.
  apply (run_terminates 5 (ok_service 1) ["vid0"] "data" 2 (1 # 1200) None
           (fresh 0) 2).
  - intros n batch. simpl. lra.
  - lia.
  - reflexivity.
  - lia.
Defined.

(** ** Further properties: degenerate arguments *)

(** X12: an interval of 0 makes the estimate divide by zero.  The run
    has by then created its directories but sent no request and written no
    row; [main] in run mode stops even before its prompt, whatever the
    answer would be. *)
Theorem zero_interval_crashes_before_polling fuel svc video_ids out_dir
    t0_hours max_calls exists_ confirm w :
  let r := run_polling_loop fuel svc video_ids out_dir 0 t0_hours max_calls w in
  r.1 = (Crashed, 0%nat)
  /\ requests r.2 = requests w
  /\ files r.2 = files w
  /\ fetch_count (log r.2) = fetch_count (log w)
  /\ (find_credentials_path exists_ <> None ->
      main fuel exists_ svc confirm
           (Args ModeRun video_ids 0 t0_hours out_dir max_calls) w
      = (MainZeroDivision, w)).
Proof.
  unfold run_polling_loop, main. simpl.
  destruct (ensure_out_dirs_frame out_dir video_ids w)
    as (_ & Hr & Hf & Hfc & _).
  repeat split; try done.
  intros Hcred. by destruct (find_credentials_path exists_).
Qed.



(** X14: with a duration of zero or less the deadline is already
    reached when the loop is entered: the run ends at once, stopped by the
    safeguard or complete, without a round, a request or a row. *)
Theorem nonpositive_duration_polls_nothing fuel svc video_ids out_dir interval
    t0_hours max_calls w :
  interval <> 0 -> (t0_hours <= 0)%Q ->
  let r := run_polling_loop (S fuel) svc video_ids out_dir interval t0_hours
                            max_calls w in
  (r.1.1 = Aborted \/ r.1.1 = Completed)
  /\ r.1.2 = 0%nat
  /\ requests r.2 = requests w
  /\ files r.2 = files w
  /\ r.2 = ensure_out_dirs out_dir video_ids w.
Proof.
  intros Hi Ht r. subst r. unfold run_polling_loop, estimate_calls.
  destruct (Z.eqb_spec interval 0) as [?|_]; [done|].
  destruct (ensure_out_dirs_frame out_dir video_ids w) as (_ & Hr & Hf & _).
  set (w0 := ensure_out_dirs out_dir video_ids w) in *.
  destruct (match max_calls with Some m => _ | None => false end); simpl.
  - repeat split; try done. by left.
  - assert (Qle_bool (now w0 + t0_hours * 3600) (now w0) = true) as ->
      by (apply Qle_bool_iff; lra).
    simpl. repeat split; try done. by right.
Qed.

Lemma nonpositive_duration_polls_nothing_witness :
  (run_polling_loop 1 (ok_service 1) ["vid0"] "data" 60 0 None (fresh 0)).1
  = (Completed, 0%nat).
Proof.
  destruct (nonpositive_duration_polls_nothing 0 (ok_service 1) ["vid0"]
              "data" 60 0 None (fresh 0)) as ([H|H] & Hcc & _).
  - lia.
  - simpl. lra.
  - reflexivity.
  - reflexivity.
Defined.

(** ** Further properties: test mode and the entry point *)

Lemma do_test_mode_frame svc video_ids interval t0_hours w :
  let r := do_test_mode svc video_ids interval t0_hours w in
  requests r.2 = S (requests w)
  /\ files r.2 = files w
  /\ log r.2 = log w ++ [EFetch (now w) 0 (take MAX_BATCH video_ids)].
Proof.
  unfold do_test_mode, videos_list_stats. simpl.
  destruct (result (svc (requests w) (take MAX_BATCH video_ids))); simpl;
    [destruct (estimate_calls _ _ _)|]; done.
Qed.

(** X15: the test mode sends exactly one request, for the first 50 ids
    at most, and writes nothing.  An [HttpError] is raised again after
    that single request, without back-off or retry; otherwise the report
    holds the decoded answer and the estimate for the whole id list, also
    when only a sample of it was requested. *)
Theorem test_mode_is_one_request svc video_ids interval t0_hours w :
  let sample_ids := take MAX_BATCH video_ids in
  let r := do_test_mode svc video_ids interval t0_hours w in
  (length sample_ids <= MAX_BATCH)%nat
  /\ requests r.2 = S (requests w)
  /\ files r.2 = files w
  /\ log r.2 = log w ++ [EFetch (now w) 0 sample_ids]
  /\ (forall st, result (svc (requests w) sample_ids) = HttpError st ->
        r.1 = TestRaised st)
  /\ (forall items planned,
        result (svc (requests w) sample_ids) = Items items ->
        estimate_calls (length video_ids) interval t0_hours = Some planned ->
        r.1 = TestReport (decode_items items) planned planned).
Proof.
  intros sample_ids r. subst r. unfold do_test_mode, videos_list_stats.
  fold sample_ids. simpl.
  split; [subst sample_ids; rewrite length_take; lia|].
  destruct (result (svc (requests w) sample_ids)) as [items|st] eqn:Hres.
  - destruct (estimate_calls _ _ _) as [planned|] eqn:Hest; simpl;
      repeat split; try done.
    intros items' planned' [= <-] [= <-]. unfold QUOTA_PER_CALL.
    by rewrite Z.mul_1_r.
  - simpl. repeat split; try done. by intros st' [= <-].
Qed.

(** X16: [main] does nothing without credentials or consent.  If
    neither credential file exists it exits with status 2, and in run mode
    any answer other than YES cancels the run; in both cases no request
    has been sent and nothing created or written.  When a credential file
    exists, [config/token.json] is preferred.  In test mode at most one
    request is sent and no file is touched. *)
Theorem main_needs_credentials_and_consent fuel exists_ svc confirm a w :
  let r := main fuel exists_ svc confirm a w in
  (exists_ "config/token.json" = false -> exists_ "credentials.json" = false ->
     r = (Exit2, w))
  /\ (exists_ "config/token.json" = true ->
      find_credentials_path exists_ = Some "config/token.json")
  /\ (arg_mode a = ModeRun -> confirm <> "YES" -> r.2 = w)
  /\ (arg_mode a = ModeTest ->
      files r.2 = files w /\ (requests r.2 <= S (requests w))%nat).
Proof.
  intros r. subst r. unfold main, find_credentials_path. simpl.
  split; [by intros -> ->|]. split; [by intros ->|]. split.
  - intros -> Hconfirm.
    destruct (if exists_ "config/token.json" then _ else _); [|done].
    destruct (estimate_calls _ _ _); [|done].
    destruct (String.eqb_spec confirm "YES"); done.
  - intros ->.
    destruct (if exists_ "config/token.json" then _ else _); simpl; [|auto].
    destruct (do_test_mode_frame svc (arg_video a) (arg_interval a)
                (arg_t0_hours a) w) as (Hr & Hf & _).
    rewrite Hr, Hf. auto.
Qed.

Lemma main_needs_credentials_and_consent_witness :
  main 5 (fun _ => false) (ok_service 1) "YES"
       (Args ModeRun ["vid0"] 60 3 "data" None) (fresh 0)
  = (Exit2, fresh 0).
Proof.
  destruct (main_needs_credentials_and_consent 5 (fun _ => false)
              (ok_service 1) "YES" (Args ModeRun ["vid0"] 60 3 "data" None)
              (fresh 0)) as [H _].
  apply H; reflexivity.
Defined.

(** ** Further properties: rows are stored in chronological order *)

Lemma StronglySorted_snoc (l : list Q) (t : Q) :
  StronglySorted Qle l -> Forall (fun ts => (ts <= t)%Q) l ->
  StronglySorted Qle (l ++ [t]).
Proof.
  induction 1 as [|x l Hl IH Hx]; intros Hall; simpl.
  - repeat constructor.
  - apply Forall_cons in Hall as [Hxt Hall]. constructor; [by apply IH|].
    apply Forall_app. split; [done|]. by constructor.
Qed.

Lemma chronological_mono t t' fs :
  (t <= t')%Q -> chronological t fs -> chronological t' fs.
Proof.
  intros Hle Hfs path c Hc. destruct (Hfs path c Hc) as [Hs Hall].
  split; [done|]. eapply Forall_impl; [exact Hall|].
  intros ts Hts. simpl in Hts. lra.
Qed.

Lemma write_snapshot_chronological out_dir ts w entry :
  chronological ts (files w) ->
  chronological ts (files (write_snapshot out_dir ts w entry)).
Proof.
  intros Hfs path c. rewrite write_snapshot_files.
  destruct (decide (csv_path_of out_dir entry.1 = path)) as [<-|Hne].
  - rewrite lookup_insert_eq. intros [= <-]. rewrite omap_app.
    change (omap row_ts [csv_row entry.1 ts entry.2]) with [ts].
    unfold file_base.
    destruct (files w !! csv_path_of out_dir entry.1) as [c|] eqn:Hc.
    + destruct (Hfs _ _ Hc) as [Hs Hall]. split.
      * by apply StronglySorted_snoc.
      * apply Forall_app. split; [done|]. constructor; [lra|done].
    + simpl. split; repeat constructor. lra.
  - rewrite lookup_insert_ne by done. apply Hfs.
Qed.

Lemma append_rows_chronological out_dir snapshots w :
  chronological (now w) (files w) ->
  chronological (now w) (files (append_rows_to_csv out_dir snapshots w)).
Proof.
  unfold append_rows_to_csv. generalize (now w) as ts. intros ts. revert w.
  induction snapshots as [|entry snapshots IH]; intros w Hfs; simpl; [done|].
  by apply IH, write_snapshot_chronological.
Qed.

Lemma retry_loop_chronological svc out_dir batch :
  nonneg_service svc ->
  forall fuel attempt cc w cc' w',
    retry_loop fuel svc out_dir batch attempt cc w = Some (cc', w') ->
    chronological (now w) (files w) ->
    chronological (now w') (files w').
Proof.
  intros Hsvc.
  induction fuel as [|fuel IH]; intros attempt cc w cc' w' Hrun Hfs; [done|].
  assert (chronological (now (after_request svc batch attempt w))
            (files (after_request svc batch attempt w))) as Hafter.
  { simpl. eapply chronological_mono; [|exact Hfs].
    specialize (Hsvc (requests w) batch). lra. }
  destruct (result (svc (requests w) batch)) as [items|st] eqn:Hres.
  - rewrite (retry_loop_success _ _ _ _ _ _ _ _ Hres) in Hrun.
    injection Hrun as <- <-.
    destruct (append_rows_log out_dir (decode_items items)
                (after_request svc batch attempt w)) as (_ & _ & _ & _ & Hn & _).
    rewrite Hn. by apply append_rows_chronological.
  - rewrite (retry_loop_error _ _ _ _ _ _ _ _ Hres) in Hrun.
    destruct (max_retries <? S attempt)%nat.
    + by injection Hrun as <- <-.
    + apply IH in Hrun; [done|]. simpl in *.
      eapply chronological_mono; [|exact Hafter].
      pose proof (backoff_wait_nonneg (S attempt)). lra.
Qed.

Lemma batch_loop_chronological svc out_dir end_ fuel :
  nonneg_service svc ->
  forall batches cc w cc' w',
    batch_loop fuel svc out_dir end_ batches cc w = Some (cc', w') ->
    chronological (now w) (files w) ->
    chronological (now w') (files w').
Proof.
  intros Hsvc.
  induction batches as [|batch rest IH]; intros cc w cc' w' Hrun Hfs;
    simpl in Hrun.
  - by injection Hrun as <- <-.
  - destruct (Qle_bool end_ (now w)).
    + by injection Hrun as <- <-.
    + destruct (retry_loop fuel svc out_dir batch 0 cc w)
        as [[cc1 w1]|] eqn:Hretry; [|done].
      eapply IH; [exact Hrun|].
      eapply retry_loop_chronological; [exact Hsvc|exact Hretry|exact Hfs].
Qed.

Lemma while_loop_chronological svc out_dir interval end_ batches :
  nonneg_service svc ->
  forall fuel cc w,
    chronological (now w) (files w) ->
    let r := while_loop fuel svc out_dir interval end_ batches cc w in
    chronological (now r.2) (files r.2).
Proof.
  intros Hsvc.
  induction fuel as [|fuel IH]; intros cc w Hfs; simpl; [done|].
  destruct (Qle_bool end_ (now w)); simpl; [done|].
  destruct (batch_loop _ svc out_dir end_ batches cc _)
    as [[cc1 w1]|] eqn:Hbatch; simpl; [|done].
  apply batch_loop_chronological in Hbatch; [|done|done].
  destruct (Z.ltb_spec interval 0) as [Hneg|Hpos]; simpl; [done|].
  apply (IH cc1 (sleep (inject_Z interval) w1)). simpl.
  eapply chronological_mono; [|exact Hbatch].
  assert (0 <= inject_Z interval)%Q
    by (change 0%Q with (inject_Z 0); by rewrite <- Zle_Qle).
  lra.
Qed.

(** X17: rows are stored in chronological order.  If every file lists
    its time stamps in non-decreasing order and none is later than the
    clock, and no request takes negative time, then the same holds after a
    run, however it ends: a row is never stored before an older one. *)
Theorem run_keeps_rows_chronological fuel svc video_ids out_dir interval
    t0_hours max_calls w :
  nonneg_service svc ->
  chronological (now w) (files w) ->
  let r := run_polling_loop fuel svc video_ids out_dir interval t0_hours
                            max_calls w in
  chronological (now r.2) (files r.2).
Proof.
  intros Hsvc Hfs r. subst r. unfold run_polling_loop.
  destruct (ensure_out_dirs_frame out_dir video_ids w) as (Hn & _ & Hf & _).
  set (w0 := ensure_out_dirs out_dir video_ids w) in *.
  assert (chronological (now w0) (files w0)) as Hfs0 by (by rewrite Hn, Hf).
  destruct (estimate_calls _ _ _) as [planned|]; simpl; [|done].
  destruct (match max_calls with Some m => m <? planned | None => false end);
    simpl; [done|].
  by apply while_loop_chronological.
Qed.

Lemma run_keeps_rows_chronological_witness :
  let r := run_polling_loop 5 (ok_service 1) ["vid0"] "data" 2 (1 # 1200)
                            None (fresh 0) in
  chronological (now r.2) (files r.2).
Proof.
  apply (run_keeps_rows_chronological 5 (ok_service 1) ["vid0"] "data" 2
           (1 # 1200) None (fresh 0)).
  - intros n batch. simpl. lra.
  - intros path c Hc. simpl in Hc. by rewrite lookup_empty in Hc.
Defined.

(** ** Further properties: a batch that is given up *)

(** X18: a batch that is given up does not end the round.  When every
    request for the first batch raises [HttpError] and the deadline has
    not passed when the batch is begun, the round goes on with the
    remaining batches from the state the retries left: the same files and
    call count, and [max_retries + 1] more requests. *)
Theorem failed_batch_does_not_stop_round svc out_dir end_ batch rest cc w :
  (forall n, exists st, result (svc n batch) = HttpError st) ->
  (now w < end_)%Q ->
  exists w1,
    retry_loop (S max_retries) svc out_dir batch 0 cc w = Some (cc, w1)
    /\ batch_loop (S max_retries) svc out_dir end_ (batch :: rest) cc w
       = batch_loop (S max_retries) svc out_dir end_ rest cc w1
    /\ files w1 = files w
    /\ requests w1 = (requests w + S max_retries)%nat.
Proof.
  intros Hfail Hnow.
  destruct (retry_loop_exhausts svc out_dir batch cc Hfail max_retries 0%nat
              (S max_retries) w)
    as (w1 & evs & Hrun & Hf & Hr & _); [done|lia|].
  exists w1. split; [done|]. split; [|done].
  cbn [batch_loop]. rewrite Hrun.
  destruct (Qle_bool end_ (now w)) eqn:E; [|done].
  apply Qle_bool_iff in E. lra.
Qed.

Lemma failed_batch_does_not_stop_round_witness :
  exists w1,
    batch_loop (S max_retries) (err_service 1 503) "data" 1000
               [["vid0"]; ["vid1"]] 0 (fresh 0)
    = batch_loop (S max_retries) (err_service 1 503) "data" 1000 [["vid1"]]
                 0 w1
    /\ requests w1 = 7%nat.
Proof.
  destruct (failed_batch_does_not_stop_round (err_service 1 503) "data" 1000
              ["vid0"] [["vid1"]] 0 (fresh 0))
    as (w1 & _ & Hloop & _ & Hr).
  - intros n. by exists (Some 503).
  - reflexivity.
  - exists w1. split; assumption.
Defined.
